(** * The HTML-to-Word content extractor of [workers/content_extractor_worker.py]

    A shallow embedding of [ContentExtractorWorker]: the URL resolver, the
    recursive tree walker, the component renderers, the table renderer and the
    assembly of the Word document, together with its near-duplicates
    ([CrawlerThread._process_table] of [workers/crawler_worker.py] and the
    exclusion prefix of [SimulationCrawler._process_element] of
    [simulate_full_extraction.py]) and the rows of the results workbook that
    [CrawlerThread] fills.

    Conventions of the embedding.
    - A Python [str] is a [string]; a character is a code point below 256.
      [str.title] is Python's on ASCII text; a class token with a letter from
      128 on, which Python would case, is outside the model.
    - A parsed page holds tags and text fragments of one kind. [bs4] tells
      comments and the text of [script], [style] and [template] tags apart
      and leaves them out of [get_text]; an element whose text is read with
      [get_text] and that holds a comment or such a tag is outside the model.
    - The exception that is followed is the [ValueError] raised inside
      [urllib.parse]: a computation that may raise it returns an [option],
      [None] standing for the raised exception.
    - The [python-docx] document is a sink: the ordered list of the blocks
      appended to it, every call returning. That the library refuses a text
      it cannot store (a control character that XML does not allow) is outside
      the model; where a result is said to be returned, it is returned for the
      texts the library accepts.
    - Functions keep the names they have in the Python source. *)

From stdpp Require Import base option list gmap strings.
From Stdlib Require Import Ascii.
From Stdlib Require DecimalString.

Set Warnings "-register-all,-clear-no-such-hyp".

(** ** Python strings *)

Module str.

Definition len (s : string) : nat := String.length s.

(** [s.startswith(p)] *)
Fixpoint startswith (s p : string) {struct p} : bool :=
  match p with
  | EmptyString => true
  | String b p' =>
      match s with
      | EmptyString => false
      | String a s' => if decide (a = b) then startswith s' p' else false
      end
  end.

(** [c in s] for a single character [c] *)
Fixpoint has (c : ascii) (s : string) : bool :=
  match s with
  | EmptyString => false
  | String a s' => if decide (a = c) then true else has c s'
  end.

(** [sub in s] *)
Fixpoint contains (sub s : string) : bool :=
  match s with
  | EmptyString => startswith s sub
  | String _ s' => startswith s sub || contains sub s'
  end.

(** [s[:n]] and [s[n:]] for [n >= 0] *)
Fixpoint take (n : nat) (s : string) : string :=
  match n, s with
  | S k, String a s' => String a (take k s')
  | _, _ => EmptyString
  end.

Fixpoint drop (n : nat) (s : string) : string :=
  match n, s with
  | S k, String _ s' => drop k s'
  | _, _ => s
  end.

(** [s[:-1]] *)
Fixpoint drop_last (s : string) : string :=
  match s with
  | EmptyString => EmptyString
  | String a EmptyString => EmptyString
  | String a s' => String a (drop_last s')
  end.

(** [str.isspace] on one character: the code points below 256 that Python
    counts as white space. *)
Definition isspace (c : ascii) : bool :=
  let n := Ascii.nat_of_ascii c in
  (Nat.leb 9 n && Nat.leb n 13) || (Nat.leb 28 n && Nat.leb n 32)
  || Nat.eqb n 133 || Nat.eqb n 160.

Fixpoint lstrip_by (p : ascii → bool) (s : string) : string :=
  match s with
  | EmptyString => EmptyString
  | String a s' => if p a then lstrip_by p s' else s
  end.

Fixpoint rstrip_by (p : ascii → bool) (s : string) : string :=
  match s with
  | EmptyString => EmptyString
  | String a s' =>
      match rstrip_by p s' with
      | EmptyString => if p a then EmptyString else String a EmptyString
      | r => String a r
      end
  end.

(** [s.strip()] *)
Definition strip (s : string) : string := rstrip_by isspace (lstrip_by isspace s).

(** [s.partition(c)], [None] when [c] does not occur in [s] *)
Fixpoint partition (c : ascii) (s : string) : option (string * string) :=
  match s with
  | EmptyString => None
  | String a s' =>
      if decide (a = c) then Some (EmptyString, s')
      else '(l, r) ← partition c s'; Some (String a l, r)
  end.

(** [s.rpartition(c)], [None] when [c] does not occur in [s] *)
Fixpoint rpartition (c : ascii) (s : string) : option (string * string) :=
  match s with
  | EmptyString => None
  | String a s' =>
      match rpartition c s' with
      | Some (l, r) => Some (String a l, r)
      | None => if decide (a = c) then Some (EmptyString, s') else None
      end
  end.

(** [s.split(c)] *)
Fixpoint split (c : ascii) (s : string) : list string :=
  match s with
  | EmptyString => [EmptyString]
  | String a s' =>
      if decide (a = c) then EmptyString :: split c s'
      else match split c s' with
           | x :: xs => String a x :: xs
           | [] => [String a EmptyString]
           end
  end.

(** [sep.join(l)] *)
Fixpoint join (sep : string) (l : list string) : string :=
  match l with
  | [] => EmptyString
  | [x] => x
  | x :: l' => x +:+ sep +:+ join sep l'
  end.

(** [s.replace(old, new)] for a non-empty [old]: occurrences are replaced
    from left to right without overlap. [skip] counts the characters of a
    matched occurrence still to be passed over. *)
Fixpoint replace_from (skip : nat) (old new s : string) : string :=
  match s with
  | EmptyString => EmptyString
  | String a s' =>
      match skip with
      | S k => replace_from k old new s'
      | 0 =>
          if startswith s old
          then new +:+ replace_from (len old - 1) old new s'
          else String a (replace_from 0 old new s')
      end
  end.

Definition replace (old new s : string) : string := replace_from 0 old new s.

Definition is_ascii_lower (c : ascii) : bool :=
  let n := Ascii.nat_of_ascii c in Nat.leb 97 n && Nat.leb n 122.
Definition is_ascii_upper (c : ascii) : bool :=
  let n := Ascii.nat_of_ascii c in Nat.leb 65 n && Nat.leb n 90.
Definition is_ascii_digit (c : ascii) : bool :=
  let n := Ascii.nat_of_ascii c in Nat.leb 48 n && Nat.leb n 57.
Definition to_upper (c : ascii) : ascii :=
  if is_ascii_lower c then Ascii.ascii_of_nat (Ascii.nat_of_ascii c - 32) else c.
Definition to_lower (c : ascii) : ascii :=
  if is_ascii_upper c then Ascii.ascii_of_nat (Ascii.nat_of_ascii c + 32) else c.

(** [s.lower()], on ASCII letters *)
Fixpoint lower (s : string) : string :=
  match s with
  | EmptyString => EmptyString
  | String a s' => String (to_lower a) (lower s')
  end.

(** [s.title()]: a letter that follows a letter is lowered, any other letter
    is raised. Letters are the ASCII letters; a code point from 128 on is
    left as it is and ends the word. *)
Fixpoint title_from (previous_is_cased : bool) (s : string) : string :=
  match s with
  | EmptyString => EmptyString
  | String a s' =>
      if is_ascii_lower a then
        String (if previous_is_cased then a else to_upper a) (title_from true s')
      else if is_ascii_upper a then
        String (if previous_is_cased then to_lower a else a) (title_from true s')
      else String a (title_from false s')
  end.

Definition title (s : string) : string := title_from false s.

(** [all(p(c) for c in s)] *)
Fixpoint all (p : ascii → bool) (s : string) : bool :=
  match s with
  | EmptyString => true
  | String a s' => p a && all p s'
  end.

(** [str(n)] for a non-negative integer *)
Definition of_nat (n : nat) : string :=
  DecimalString.NilZero.string_of_uint (Nat.to_uint n).

(** [bool(s)]: a string is true when it is not empty. *)
Definition truthy (s : string) : bool :=
  match s with EmptyString => false | _ => true end.

End str.

(** [enumerate(l, start)] *)
Fixpoint enumerate {A : Type} (start : nat) (l : list A) : list (nat * A) :=
  match l with
  | [] => []
  | x :: l' => (start, x) :: enumerate (S start) l'
  end.

(** ** [urllib.parse]

    The functions [urljoin] and [urlparse] that the worker imports, after
    CPython's [Lib/urllib/parse.py], with [allow_fragments] at its default.
    On code points below 256 [_checknetloc] never raises (no such character
    normalises under NFKC to a text holding one of [/?#@:]), so it is left out.
    [_check_bracketed_netloc] validates a network location that holds both
    square brackets through the [ipaddress] module; it is a parameter below,
    [true] standing for its normal return. *)

Definition uses_relative : list string :=
  [""; "ftp"; "http"; "gopher"; "nntp"; "imap"; "wais"; "file"; "https";
   "shttp"; "mms"; "prospero"; "rtsp"; "rtspu"; "sftp"; "svn"; "svn+ssh";
   "ws"; "wss"].

Definition uses_netloc : list string :=
  [""; "ftp"; "http"; "gopher"; "nntp"; "telnet"; "imap"; "wais"; "file";
   "mms"; "https"; "shttp"; "snews"; "prospero"; "rtsp"; "rtspu"; "rsync";
   "svn"; "svn+ssh"; "sftp"; "nfs"; "git"; "git+ssh"; "ws"; "wss"].

Definition uses_params : list string :=
  [""; "ftp"; "hdl"; "prospero"; "http"; "imap"; "https"; "shttp"; "rtsp";
   "rtspu"; "sip"; "sips"; "mms"; "sftp"; "tel"].

Definition scheme_chars (c : ascii) : bool :=
  str.is_ascii_lower c || str.is_ascii_upper c || str.is_ascii_digit c
  || str.has c "+-.".

Definition _WHATWG_C0_CONTROL_OR_SPACE (c : ascii) : bool :=
  Nat.leb (nat_of_ascii c) 32.

Definition _UNSAFE_URL_BYTES_TO_REMOVE : list string :=
  [String "009" ""; String "013" ""; String "010" ""].

(** [for b in _UNSAFE_URL_BYTES_TO_REMOVE: url = url.replace(b, "")] *)
Definition remove_unsafe_bytes (url : string) : string :=
  foldl (λ u b, str.replace b "" u) url _UNSAFE_URL_BYTES_TO_REMOVE.

Definition is_netloc_delimiter (c : ascii) : bool := str.has c "/?#".

(** The text up to the first character that satisfies [p], and the rest. *)
Fixpoint span_until (p : ascii → bool) (s : string) : string * string :=
  match s with
  | EmptyString => (EmptyString, EmptyString)
  | String a s' =>
      if p a then (EmptyString, s)
      else let '(l, r) := span_until p s' in (String a l, r)
  end.

(** [_splitnetloc(url, start)] *)
Definition _splitnetloc (url : string) (start : nat) : string * string :=
  span_until is_netloc_delimiter (str.drop start url).

(** [_splitparams(url)] *)
Definition _splitparams (url : string) : string * string :=
  match str.rpartition "/" url with
  | Some (before, after) =>
      match str.partition ";" after with
      | Some (l, r) => (before +:+ "/" +:+ l, r)
      | None => (url, "")
      end
  | None =>
      match str.partition ";" url with
      | Some (l, r) => (l, r)
      | None => (str.drop_last url, url)
      end
  end.

Record ParseResult := {
  scheme : string; netloc : string; path : string;
  params : string; query : string; fragment : string }.

(** [urlunsplit((scheme, netloc, url, query, fragment))] *)
Definition urlunsplit (scheme netloc url query fragment : string) : string :=
  let url :=
    if str.truthy netloc
       || (str.truthy scheme && bool_decide (scheme ∈ uses_netloc)
           && negb (str.startswith url "//"))
    then
      let url := if str.truthy url && negb (str.startswith url "/")
                 then "/" +:+ url else url in
      "//" +:+ netloc +:+ url
    else url in
  let url := if str.truthy scheme then scheme +:+ ":" +:+ url else url in
  let url := if str.truthy query then url +:+ "?" +:+ query else url in
  if str.truthy fragment then url +:+ "#" +:+ fragment else url.

(** [urlunparse(components)] *)
Definition urlunparse (r : ParseResult) : string :=
  let url := if str.truthy (params r) then path r +:+ ";" +:+ params r else path r in
  urlunsplit (scheme r) (netloc r) url (query r) (fragment r).

(** The loop of [urljoin] that resolves the dot segments. *)
Definition resolve_segment (resolved_path : list string) (seg : string) : list string :=
  if decide (seg = "..") then removelast resolved_path
  else if decide (seg = ".") then resolved_path
  else resolved_path ++ [seg].

(** [segments[1:-1] = filter(None, segments[1:-1])] *)
Definition filter_inner_segments (segments : list string) : list string :=
  match segments with
  | first :: (_ :: _) as rest =>
      first :: filter (λ s, str.truthy s = true) (removelast rest)
            ++ [List.last rest ""]
  | _ => segments
  end.

(** The scheme of [urlsplit]: the text before the first colon when that text
    starts with an ASCII letter and consists of scheme characters. *)
Definition split_scheme (url scheme : string) : string * string :=
  match str.partition ":" url with
  | Some (String a _ as before, after) =>
      if (str.is_ascii_lower a || str.is_ascii_upper a)
         && str.all scheme_chars before
      then (str.lower before, after)
      else (scheme, url)
  | _ => (scheme, url)
  end.

(** [url.split(c, 1)] when [c] is in [url], else [url] and the empty text *)
Definition split_at (c : ascii) (url : string) : string * string :=
  match str.partition c url with
  | Some (l, r) => (l, r)
  | None => (url, EmptyString)
  end.

Section urllib_parse.

Variable _check_bracketed_netloc : string → bool.

(** The network location of [urlsplit]: what follows a leading [//], checked
    for its brackets. *)
Definition split_netloc (url : string) : option (string * string) :=
  if str.startswith url "//" then
    let '(netloc, rest) := _splitnetloc url 2 in
    if (str.has "[" netloc && negb (str.has "]" netloc))
       || (str.has "]" netloc && negb (str.has "[" netloc))
    then None
    else if str.has "[" netloc && str.has "]" netloc
            && negb (_check_bracketed_netloc netloc)
    then None
    else Some (netloc, rest)
  else Some (EmptyString, url).

(** [urlsplit(url, scheme)]: the five parts
    [(scheme, netloc, url, query, fragment)]. *)
Definition urlsplit (url scheme : string)
    : option (string * string * string * string * string) :=
  let url := str.lstrip_by _WHATWG_C0_CONTROL_OR_SPACE url in
  let scheme :=
    str.rstrip_by _WHATWG_C0_CONTROL_OR_SPACE
      (str.lstrip_by _WHATWG_C0_CONTROL_OR_SPACE scheme) in
  let url := remove_unsafe_bytes url in
  let scheme := remove_unsafe_bytes scheme in
  let '(scheme, url) := split_scheme url scheme in
  '(netloc, url) ← split_netloc url;
  let '(url, fragment) := split_at "#" url in
  let '(url, query) := split_at "?" url in
  Some (scheme, netloc, url, query, fragment).

(** [urlparse(url, scheme)] *)
Definition urlparse (url scheme : string) : option ParseResult :=
  '(scheme, netloc, url, query, fragment) ← urlsplit url scheme;
  let '(url, params) :=
    if bool_decide (scheme ∈ uses_params) && str.has ";" url
    then _splitparams url else (url, EmptyString) in
  Some {| scheme := scheme; netloc := netloc; path := url;
          params := params; query := query; fragment := fragment |}.

(** [urljoin(base, url)] *)
Definition urljoin (base url : string) : option string :=
  if negb (str.truthy base) then Some url
  else if negb (str.truthy url) then Some base
  else
    b ← urlparse base "";
    u ← urlparse url (scheme b);
    if negb (bool_decide (scheme u = scheme b))
       || negb (bool_decide (scheme u ∈ uses_relative))
    then Some url
    else if bool_decide (scheme u ∈ uses_netloc) && str.truthy (netloc u)
    then Some (urlunparse u)
    else
      let netloc' :=
        if bool_decide (scheme u ∈ uses_netloc) then netloc b else netloc u in
      if negb (str.truthy (path u)) && negb (str.truthy (params u)) then
        Some (urlunparse
                {| scheme := scheme u; netloc := netloc'; path := path b;
                   params := params b;
                   query := if str.truthy (query u) then query u else query b;
                   fragment := fragment u |})
      else
        let base_parts := str.split "/" (path b) in
        let base_parts :=
          if decide (List.last base_parts "" = "") then base_parts
          else removelast base_parts in
        let segments :=
          if str.startswith (path u) "/" then str.split "/" (path u)
          else filter_inner_segments (base_parts ++ str.split "/" (path u)) in
        let resolved_path := foldl resolve_segment [] segments in
        let resolved_path :=
          if bool_decide (List.last segments "" ∈ ["."; ".."])
          then resolved_path ++ [EmptyString] else resolved_path in
        let joined := str.join "/" resolved_path in
        Some (urlunparse
                {| scheme := scheme u; netloc := netloc';
                   path := if str.truthy joined then joined else "/";
                   params := params u; query := query u;
                   fragment := fragment u |}).

End urllib_parse.

(** ** BeautifulSoup trees

    A parsed page is a tree of tags and text fragments. A tag has a name, its
    single-valued attributes, the token list of its [class] attribute (empty
    when the attribute is absent) and its children in document order. All text
    fragments are plain [NavigableString]s. *)

Inductive Node :=
| Tag (name : string) (attrs : gmap string string) (class_ : list string)
      (contents : list Node)
| NavigableString (text : string).

(** A node as [bs4] hands it out: together with its chain of parents, the
    nearest first. *)
Record PageElement := { node : Node; parents : list Node }.

Module bs4.

Definition is_tag (e : PageElement) : bool :=
  match node e with Tag _ _ _ _ => true | NavigableString _ => false end.

(** [e.name] ([None] on a string is the empty name here) *)
Definition name (e : PageElement) : string :=
  match node e with Tag n _ _ _ => n | NavigableString _ => EmptyString end.

(** [e.get('class', [])] *)
Definition get_class (e : PageElement) : list string :=
  match node e with Tag _ _ c _ => c | NavigableString _ => [] end.

(** [e.get(key)] *)
Definition get (e : PageElement) (key : string) : option string :=
  match node e with Tag _ a _ _ => a !! key | NavigableString _ => None end.

(** [e.get(key, dflt)] *)
Definition get_default (e : PageElement) (key dflt : string) : string :=
  default dflt (get e key).

(** [e.parent] *)
Definition parent (e : PageElement) : option PageElement :=
  match parents e with
  | [] => None
  | p :: ps => Some {| node := p; parents := ps |}
  end.

(** [e.children] *)
Definition children (e : PageElement) : list PageElement :=
  match node e with
  | Tag _ _ _ contents =>
      map (λ c, {| node := c; parents := node e :: parents e |}) contents
  | NavigableString _ => []
  end.

(** The descendants of a node in document order, [ps] being the parent
    chain of the node itself. *)
Fixpoint descendants_of (ps : list Node) (n : Node) : list PageElement :=
  match n with
  | NavigableString _ => []
  | Tag _ _ _ contents =>
      (fix go (cs : list Node) : list PageElement :=
         match cs with
         | [] => []
         | c :: cs' =>
             {| node := c; parents := n :: ps |}
               :: descendants_of (n :: ps) c ++ go cs'
         end) contents
  end.

(** [e.descendants] *)
Definition descendants (e : PageElement) : list PageElement :=
  descendants_of (parents e) (node e).

Definition has_name (names : list string) (e : PageElement) : bool :=
  is_tag e && bool_decide (name e ∈ names).

(** A [class_=] filter given as a string matches a tag that carries the
    token. *)
Definition has_class (c : string) (e : PageElement) : bool :=
  is_tag e && bool_decide (c ∈ get_class e).

(** A [class_=] filter given as a compiled pattern matches a tag one of
    whose tokens the pattern finds a match in. *)
Definition class_matches (pattern : string → bool) (e : PageElement) : bool :=
  is_tag e && existsb pattern (get_class e).

(** [e.find_all(...)] and [e.find(...)] with the filter [p] *)
Definition find_all (p : PageElement → bool) (e : PageElement) : list PageElement :=
  List.filter p (descendants e).

Definition find (p : PageElement → bool) (e : PageElement) : option PageElement :=
  head (find_all p e).

(** [e.find_all(names, recursive=False)] *)
Definition find_all_children (p : PageElement → bool) (e : PageElement)
    : list PageElement :=
  List.filter p (children e).

(** [e.find_parent(class_=c)] *)
Definition find_parent (c : string) (e : PageElement) : option PageElement :=
  (fix go (ps : list Node) : option PageElement :=
     match ps with
     | [] => None
     | p :: ps' =>
         let pe := {| node := p; parents := ps' |} in
         if has_class c pe then Some pe else go ps'
     end) (parents e).

(** The text fragments below a tag, in document order. *)
Definition strings (e : PageElement) : list string :=
  omap (λ d, match node d with
             | NavigableString t => Some t
             | Tag _ _ _ _ => None
             end) (descendants e).

(** [e.get_text()] *)
Definition get_text (e : PageElement) : string :=
  str.join "" (strings e).

(** The fragments [get_text(strip=True)] keeps. *)
Definition stripped_strings (e : PageElement) : list string :=
  List.filter str.truthy (map str.strip (strings e)).

(** [e.get_text(strip=True)] *)
Definition get_text_strip (e : PageElement) : string :=
  str.join "" (stripped_strings e).

(** [e.get_text(separator=sep, strip=True)] *)
Definition get_text_sep_strip (sep : string) (e : PageElement) : string :=
  str.join sep (stripped_strings e).

(** [e.string] *)
Fixpoint string_of (n : Node) : option string :=
  match n with
  | NavigableString t => Some t
  | Tag _ _ _ [child] => string_of child
  | Tag _ _ _ _ => None
  end.

Definition string_ (e : PageElement) : option string :=
  match node e with
  | NavigableString _ => None
  | Tag _ _ _ _ => string_of (node e)
  end.

(** [a == b] on tags and strings: the same name, attributes and contents *)
Fixpoint eq (a b : Node) : bool :=
  match a, b with
  | Tag n1 a1 c1 k1, Tag n2 a2 c2 k2 =>
      bool_decide (n1 = n2) && bool_decide (a1 = a2) && bool_decide (c1 = c2)
      && (fix go (l1 l2 : list Node) : bool :=
            match l1, l2 with
            | [], [] => true
            | x :: l1', y :: l2' => eq x y && go l1' l2'
            | _, _ => false
            end) k1 k2
  | NavigableString s1, NavigableString s2 => bool_decide (s1 = s2)
  | _, _ => false
  end.

(** [BeautifulSoup(html)]: the document object, whose children are the
    top-level nodes of the page. *)
Definition BeautifulSoup (contents : list Node) : PageElement :=
  {| node := Tag "[document]" ∅ [] contents; parents := [] |}.

End bs4.

(** ** Word documents

    What [python-docx] is asked to build: paragraphs and headings made of
    formatted runs, and tables whose cells hold the runs of their single
    paragraph. [Pt] sizes are in points, colours are RGB triples. *)

Record Run := {
  text : string;
  bold : bool;
  italic : bool;
  underline : bool;
  font_size : option nat;
  font_color : option (nat * nat * nat) }.

(** [paragraph.add_run(text)] before any formatting is set *)
Definition add_run (t : string) : Run :=
  {| text := t; bold := false; italic := false; underline := false;
     font_size := None; font_color := None |}.

Definition set_bold (r : Run) : Run :=
  {| text := text r; bold := true; italic := italic r; underline := underline r;
     font_size := font_size r; font_color := font_color r |}.

Definition set_italic (r : Run) : Run :=
  {| text := text r; bold := bold r; italic := true; underline := underline r;
     font_size := font_size r; font_color := font_color r |}.

Definition set_font (size : option nat) (color : option (nat * nat * nat))
    (underlined : bool) (r : Run) : Run :=
  {| text := text r; bold := bold r; italic := italic r; underline := underlined;
     font_size := size; font_color := color |}.

Definition Cell : Type := list Run.

Inductive Block :=
| Paragraph (style : option string) (centered : bool) (runs : list Run)
| Heading (level : nat) (runs : list Run)
| Table (style : string) (rows : list (list Cell)).

Definition Document : Type := list Block.

(** [doc.add_paragraph(text, style)]: a run is made only for a non-empty text;
    [doc.add_paragraph()] makes none. *)
Definition add_paragraph (t : string) (style : option string) : Block :=
  Paragraph style false (if str.truthy t then [add_run t] else []).

(** [doc.add_heading(text, level)] *)
Definition add_heading (t : string) (level : nat) : Block :=
  Heading level (if str.truthy t then [add_run t] else []).

(** [doc.add_table(rows, cols)]: every cell starts with an empty paragraph. *)
Definition add_table (rows cols : nat) : list (list Cell) :=
  replicate rows (replicate cols ([] : Cell)).

(** [table.rows[i].cells[j]] rewritten by [f] *)
Definition alter_cell (f : Cell → Cell) (i j : nat) (rows : list (list Cell))
    : list (list Cell) :=
  alter (alter f j) i rows.

(** [cell.text = t]: the cell is left with one plain run. *)
Definition set_cell_text (t : string) (_ : Cell) : Cell := [add_run t].

(** [cell.text] *)
Definition cell_text (c : Cell) : string := str.join "" (map text c).

Definition LF : string := String "010" EmptyString.

(** ** The worker

    [ContentExtractorWorker] of [workers/content_extractor_worker.py]. The
    fields the extraction reads or writes; the Qt signals and the fetch are
    outside the model. *)

Record ContentExtractorWorker := {
  url : string;
  output_folder : string;
  text_block_count : nat;
  text_image_count : nat;
  base_url : string }.

Definition set_text_block_count (n : nat) (self : ContentExtractorWorker)
    : ContentExtractorWorker :=
  {| url := url self; output_folder := output_folder self;
     text_block_count := n; text_image_count := text_image_count self;
     base_url := base_url self |}.

Definition set_text_image_count (n : nat) (self : ContentExtractorWorker)
    : ContentExtractorWorker :=
  {| url := url self; output_folder := output_folder self;
     text_block_count := text_block_count self; text_image_count := n;
     base_url := base_url self |}.

(** The class tokens that prune an element and its subtree. *)
Definition exclusions : gset string :=
  {[ "hero--article-wrapper--items"; "article-author-bottom";
     "nppe-feedback-article-form"; "related-topics--label";
     "related-topics--links"; "article--progressbar";
     "component--newsletter" ]}.

(** The class combination of a text block. *)
Definition target_classes : gset string :=
  {[ "clearfix"; "text-formatted"; "field"; "field--name-field-c-text";
     "field--type-text-long"; "field--label-hidden"; "field__item" ]}.

(** The marker paragraph of the [n]th text block: 9 pt, dark green, bold. *)
Definition text_block_marker (n : nat) : Block :=
  Paragraph None false
    [set_bold (set_font (Some 9) (Some (0, 100, 0)) false
       (add_run ("[COMPONENT: Text Block " +:+ str.of_nat n +:+ "]")))].

(** The marker paragraph of a component: 9 pt, grey, italic. *)
Definition component_marker (display_name : string) : Block :=
  Paragraph None false
    [set_italic (set_font (Some 9) (Some (100, 100, 100)) false
       (add_run ("[COMPONENT: " +:+ display_name +:+ "]")))].

(** The loop of [_process_element] over the class tokens: the first token
    that names a component decides. *)
Fixpoint component_name (classes : list string) : option string :=
  match classes with
  | [] => None
  | cls :: rest =>
      if str.startswith cls "component--" then
        Some (str.title (str.replace "-" " " (str.replace "component--" "" cls)))
      else if decide (cls = "article--hero") then Some "Hero Article"
      else if decide (cls = "hero--image") then Some "Hero Image"
      else component_name rest
  end.

(** [int(name[1])] for a heading tag *)
Definition heading_level (name : string) : nat :=
  match str.drop 1 name with
  | String c _ => nat_of_ascii c - 48
  | EmptyString => 0
  end.

(** The pattern [(summary|text|desc|body|content)], searched in a token. *)
Definition text_container_pattern (token : string) : bool :=
  existsb (λ w, str.contains w token) ["summary"; "text"; "desc"; "body"; "content"].

(** [list(dict.fromkeys(l))]: the first occurrence of every text, in order *)
Fixpoint fromkeys_from (seen : gset string) (l : list string) : list string :=
  match l with
  | [] => []
  | x :: l' =>
      if bool_decide (x ∈ seen) then fromkeys_from seen l'
      else x :: fromkeys_from ({[x]} ∪ seen) l'
  end.

Definition fromkeys (l : list string) : list string := fromkeys_from ∅ l.

(** [_process_table]: the grid is made with the largest cell count of a row
    and filled row by row. *)
Definition fill_row (col_count i : nat) (cells : list PageElement)
    (word_table : list (list Cell)) : list (list Cell) :=
  foldl (λ tbl jc,
           if Nat.ltb jc.1 col_count
           then alter_cell (set_cell_text (bs4.get_text_strip jc.2)) i jc.1 tbl
           else tbl)
        word_table (enumerate 0 cells).

Definition table_cells (row : PageElement) : list PageElement :=
  bs4.find_all (bs4.has_name ["td"; "th"]) row.

Definition _process_table (doc : Document) (table_element : PageElement) : Document :=
  let rows := bs4.find_all (bs4.has_name ["tr"]) table_element in
  match rows with
  | [] => doc
  | _ =>
      let col_count := max_list (map (λ row, length (table_cells row)) rows) in
      let word_table := add_table (length rows) col_count in
      doc ++ [Table "Light Grid Accent 1"
                (foldl (λ tbl ir, fill_row col_count ir.1 (table_cells ir.2) tbl)
                       word_table (enumerate 0 rows))]
  end.

(** The anchors of an article list that are kept: not under a category field,
    with a non-empty [href] not seen before. *)
Fixpoint article_links_from (seen_urls : gset string) (all_links : list PageElement)
    : list PageElement :=
  match all_links with
  | [] => []
  | link :: rest =>
      let parent_classes :=
        match bs4.parent link with
        | Some parent => bs4.get_class parent
        | None => []
        end in
      if bool_decide ("field--name-field-article-category" ∉ parent_classes) then
        let url := bs4.get_default link "href" "" in
        if str.truthy url && bool_decide (url ∉ seen_urls)
        then link :: article_links_from ({[url]} ∪ seen_urls) rest
        else article_links_from seen_urls rest
      else article_links_from seen_urls rest
  end.

(** The title of an article: the text of the first title field found below
    one of the anchor's ancestors inside the component, else the anchor's
    own text. *)
Fixpoint title_from_parents (element : Node) (ps : list Node) (title_text : string)
    : string :=
  match ps with
  | [] => title_text
  | p :: ps' =>
      if bs4.eq p element then title_text
      else
        match bs4.find (bs4.has_class "field--name-title")
                {| node := p; parents := ps' |} with
        | Some title_field => bs4.get_text_strip title_field
        | None => title_from_parents element ps' title_text
        end
  end.

Definition article_title (element link : PageElement) : string :=
  title_from_parents (node element) (parents link) (bs4.get_text_strip link).

(** The body of a text-image component, first tier. *)
Fixpoint text_image_content (seen_texts : gset string) (content_tags : list PageElement)
    : list Block :=
  match content_tags with
  | [] => []
  | tag :: rest =>
      match bs4.find_parent "hero--article-category" tag with
      | Some _ => text_image_content seen_texts rest
      | None =>
          let text_content := bs4.get_text_strip tag in
          if str.truthy text_content && Nat.ltb 2 (str.len text_content)
             && bool_decide (text_content ∉ seen_texts)
          then
            (if bs4.has_name ["h2"; "h3"; "h4"; "h5"; "h6"] tag
             then add_heading text_content (heading_level (bs4.name tag))
             else add_paragraph text_content None)
              :: text_image_content ({[text_content]} ∪ seen_texts) rest
          else text_image_content seen_texts rest
      end
  end.

(** The body of a text-image component, second tier. *)
Fixpoint text_image_fallback (seen_texts : gset string)
    (text_containers : list PageElement) : list Block :=
  match text_containers with
  | [] => []
  | container :: rest =>
      let t := bs4.get_text_strip container in
      if str.truthy t && Nat.ltb 10 (str.len t) && bool_decide (t ∉ seen_texts)
      then add_paragraph t None :: text_image_fallback ({[t]} ∪ seen_texts) rest
      else text_image_fallback seen_texts rest
  end.

(** The content below the table of a text-image component: the first tier
    when the component has content tags at all, else the second. *)
Definition text_image_body (element : PageElement) : list Block :=
  let content_tags :=
    bs4.find_all (bs4.has_name ["p"; "h2"; "h3"; "h4"; "h5"; "h6"; "li"]) element in
  match content_tags with
  | [] =>
      text_image_fallback ∅
        (bs4.find_all (bs4.class_matches text_container_pattern) element)
  | _ => text_image_content ∅ content_tags
  end.

(** The text of a generic component, from its text containers. *)
Definition container_text_parts (text_containers : list PageElement) : list string :=
  flat_map (λ container,
              if bool_decide ("hero--article-category" ∈ bs4.get_class container)
              then []
              else
                let t := bs4.get_text_strip container in
                if str.truthy t && Nat.ltb 10 (str.len t) then [t] else [])
           text_containers.

Definition tag_text_parts (tags : list PageElement) : list string :=
  List.filter str.truthy (map bs4.get_text_strip tags).

(** ** The two sibling routines

    [CrawlerThread._process_table] of [workers/crawler_worker.py]: the table
    renderer of the general crawler, which also sets the header cells bold. *)

Module CrawlerThread.

Definition fill_row (col_count i : nat) (cells : list PageElement)
    (word_table : list (list Cell)) : list (list Cell) :=
  foldl (λ tbl jc,
           if Nat.ltb jc.1 col_count then
             let tbl := alter_cell (set_cell_text (bs4.get_text_strip jc.2)) i jc.1 tbl in
             if decide (bs4.name jc.2 = "th")
             then alter_cell (map set_bold) i jc.1 tbl else tbl
           else tbl)
        word_table (enumerate 0 cells).

Definition _process_table (doc : Document) (table_element : PageElement) : Document :=
  let rows := bs4.find_all (bs4.has_name ["tr"]) table_element in
  match rows with
  | [] => doc
  | _ =>
      let col_count := max_list (map (λ row, length (table_cells row)) rows) in
      let word_table := add_table (length rows) col_count in
      doc ++ [Table "Light Grid Accent 1"
                (foldl (λ tbl ir, fill_row col_count ir.1 (table_cells ir.2) tbl)
                       word_table (enumerate 0 rows))]
  end.

(** ** The results workbook

    [CrawlerThread.main] and [CrawlerThread._crawl_url]: the header row of
    the main sheet, the row made for a fetched page, and the two sheets that
    are filled from the results. The fetch itself is outside the model: a
    fetched page is its URL, the status of the response, its [Location]
    header and the parsed body, and the pages are taken in the order in which
    their fetches complete. The search of a class pattern by [bs4] and of a
    compiled word pattern by [re] are parameters. *)

Definition MAX_EXCEL_CELL_LENGTH : nat := N.to_nat 32767.

(** [extract_options.get(key)], read as a truth value *)
Definition option_set (extract_options : gmap string bool) (key : string) : bool :=
  default false (extract_options !! key).

(** The box that stands for all five SEO boxes. *)
Definition expand_meta_tags (extract_options : gmap string bool) : gmap string bool :=
  if option_set extract_options "meta_tags" then
    <["schema" := true]>
      (<["og_tags" := true]>
         (<["meta_description" := true]>
            (<["h1" := true]> (<["title" := true]> extract_options))))
  else extract_options.

Definition excel_options_selected (mode : nat) (extract_options : gmap string bool)
    : bool :=
  option_set extract_options "h1" || option_set extract_options "title"
  || option_set extract_options "meta_description"
  || option_set extract_options "og_tags" || option_set extract_options "schema"
  || bool_decide (mode ∈ [1; 2]).

(** The header row of the main sheet. *)
Definition headers (mode : nat) (extract_options : gmap string bool) : list string :=
  ["URL"]
  ++ (if option_set extract_options "h1" then ["H1 Tag"] else [])
  ++ (if option_set extract_options "title" then ["Meta Title"] else [])
  ++ (if option_set extract_options "meta_description"
      then ["Meta Description"] else [])
  ++ (if option_set extract_options "og_tags"
      then ["OG Title"; "OG Description"; "OG Image"] else [])
  ++ (if option_set extract_options "schema" then ["Schema JSON"] else [])
  ++ (if decide (mode = 1) then ["Module Found"]
      else if decide (mode = 2) then ["Found Words"] else []).

(** The terms of a comma-separated search input: trimmed, blanks left out. *)
Definition split_terms (search_input : string) : list string :=
  List.filter str.truthy (map str.strip (str.split "," search_input)).

(** The class patterns (mode 1) and the words searched (mode 2). *)
Definition class_patterns (mode : nat) (search_input : string) : list string :=
  if decide (mode = 1) then
    if str.truthy search_input then split_terms search_input else []
  else [].

Definition search_words (mode : nat) (search_input : string) : list string :=
  if decide (mode = 1) then []
  else if decide (mode = 2) then
    if str.truthy search_input then split_terms search_input else []
  else [].

(** [meta["content"] if meta and meta.get("content") else missing] *)
Definition meta_content (soup : PageElement) (p : PageElement → bool)
    (missing : string) : string :=
  match bs4.find (λ e, bs4.has_name ["meta"] e && p e) soup with
  | Some meta =>
      let content := bs4.get_default meta "content" "" in
      if str.truthy content then content else missing
  | None => missing
  end.

Inductive CellValue :=
| text_value (s : string)
| number_value (n : nat).

(** What [_crawl_url] returns: a row for the main sheet, a row for the error
    sheet, or nothing. *)
Inductive CrawlResult :=
| success (main_data : list string)
| error (error_data : list CellValue)
| no_result.

Record FetchedPage := {
  page_url : string;
  status : nat;
  location : option string;
  body : PageElement }.

Section crawl_url.

(** [any(soup.find(class_=cp) for cp in class_patterns)] *)
Variable class_found : list string → PageElement → bool.

(** [[p.pattern for p in search_patterns if p.search(text)]] *)
Variable found_words : list string → string → list string.

(** The row of a page that was fetched with status 200. *)
Definition row_data (mode : nat) (extract_options : gmap string bool)
    (class_patterns search_patterns : list string) (url : string)
    (soup : PageElement) : list string :=
  [url]
  ++ (if option_set extract_options "h1" then
        [match bs4.find (bs4.has_name ["h1"]) soup with
         | Some h1 => bs4.get_text_strip h1
         | None => "No H1"
         end]
      else [])
  ++ (if option_set extract_options "title" then
        [match bs4.find (bs4.has_name ["title"]) soup with
         | Some title =>
             match bs4.string_ title with
             | Some t => if str.truthy t then str.strip t else "No title"
             | None => "No title"
             end
         | None => "No title"
         end]
      else [])
  ++ (if option_set extract_options "meta_description" then
        [meta_content soup
           (λ e, bool_decide (bs4.get e "name" = Some "description"))
           "No meta description"]
      else [])
  ++ (if option_set extract_options "og_tags" then
        [meta_content soup
           (λ e, bool_decide (bs4.get e "property" = Some "og:title")) "";
         meta_content soup
           (λ e, bool_decide (bs4.get e "property" = Some "og:description")) "";
         meta_content soup
           (λ e, bool_decide (bs4.get e "property" = Some "og:image")) ""]
      else [])
  ++ (if option_set extract_options "schema" then
        [match bs4.find_all
                 (λ e, bs4.has_name ["script"] e
                       && bool_decide (bs4.get e "type" = Some "application/ld+json"))
                 soup with
         | [] => "No Schema"
         | schemas =>
             let schema_texts :=
               omap (λ s, match bs4.string_ s with
                          | Some t => if str.truthy t then Some (str.strip t) else None
                          | None => None
                          end) schemas in
             str.take MAX_EXCEL_CELL_LENGTH
               (str.join (LF +:+ "---" +:+ LF) schema_texts)
         end]
      else [])
  ++ (if decide (mode = 1) then
        [if class_found class_patterns soup then "Yes" else "No"]
      else if decide (mode = 2) then
        [match found_words search_patterns (bs4.get_text soup) with
         | [] => "None"
         | words => str.join ", " words
         end]
      else []).

Definition _crawl_url (check_errors : bool) (mode : nat)
    (extract_options : gmap string bool)
    (class_patterns search_patterns : list string) (page : FetchedPage)
    : CrawlResult :=
  if bool_decide (status page ∈ [403; 404]) && check_errors then
    error [text_value (page_url page); number_value (status page);
           text_value (default "N/A" (location page))]
  else if decide (status page = 200) then
    success (row_data mode extract_options class_patterns search_patterns
               (page_url page) (body page))
  else no_result.

(** The two sheets [main] fills: the main sheet, made only when a column
    besides the URL is asked for, and the error sheet, made only when errors
    are checked. *)
Definition main (check_errors : bool) (mode : nat) (search_input : string)
    (extract_options : gmap string bool) (pages : list FetchedPage)
    : option (list (list string)) * option (list (list CellValue)) :=
  let class_patterns := class_patterns mode search_input in
  let search_patterns := search_words mode search_input in
  let extract_options := expand_meta_tags extract_options in
  let ws_main :=
    if excel_options_selected mode extract_options
    then Some [headers mode extract_options] else None in
  let ws_errors :=
    if check_errors
    then Some [[text_value "URL"; text_value "Status Code"; text_value "Redirect"]]
    else None in
  foldl (λ sheets page,
           match _crawl_url check_errors mode extract_options class_patterns
                   search_patterns page with
           | success main_data =>
               ((λ rows, rows ++ [main_data]) <$> sheets.1, sheets.2)
           | error error_data =>
               (sheets.1, (λ rows, rows ++ [error_data]) <$> sheets.2)
           | no_result => sheets
           end)
        (ws_main, ws_errors) pages.

End crawl_url.

End CrawlerThread.

(** [SimulationCrawler._process_element] of [simulate_full_extraction.py], up
    to its text-block step: the tests that make it return before anything is
    appended. What follows them in the function is a parameter here. *)

Module SimulationCrawler.

Definition exclusions : gset string :=
  {[ "hero--article-wrapper--items"; "article-author-bottom";
     "nppe-feedback-article-form"; "related-topics--label";
     "related-topics--links"; "article--progressbar" ]}.

(** The feedback prompt, with its two accented letters as the code points
    224 and 233. *)
Definition feedback_prompt : string :=
  "Aidez-nous " +:+ String "224" (" nous am" +:+ String "233" "liorer").

(** [element.find(string=s)]: the first text fragment equal to [s] *)
Definition find_string (s : string) (element : PageElement) : option PageElement :=
  bs4.find (λ d, match node d with
                 | NavigableString t => bool_decide (t = s)
                 | Tag _ _ _ _ => false
                 end) element.

(** The heuristic fallback: a small [div] that holds the feedback prompt. *)
Definition is_feedback_block (element : PageElement) : bool :=
  bool_decide (bs4.name element = "div")
  && str.contains feedback_prompt (bs4.get_text element)
  && Nat.ltb (str.len (bs4.get_text element)) 1000
  && match find_string feedback_prompt element with
     | Some _ => Nat.ltb (str.len (bs4.get_text element)) 300
     | None => false
     end.

Definition returns_early (element : PageElement) : bool :=
  let class_set : gset string := list_to_set (bs4.get_class element) in
  bool_decide (bs4.name element
               ∈ ["script"; "style"; "nav"; "footer"; "header"; "noscript"])
  || negb (bool_decide (class_set ## exclusions))
  || bool_decide ("component--newsletter" ∈ class_set)
  || bool_decide (bs4.get element "id" = Some "nppe-feedback-article-form")
  || is_feedback_block element.

Section process_element.

Context {State : Type}.

(** The function from its text-block step on. *)
Variable process_from_text_block : State → PageElement → State.

Definition _process_element (st : State) (element : PageElement) : State :=
  if returns_early element then st else process_from_text_block st element.

End process_element.

(** [SimulationCrawler._make_absolute]: the resolver of the simulation, with
    the origin of its one target site written in. *)
Definition _make_absolute (url : string) : string :=
  if str.startswith url "http" then url
  else if str.startswith url "/" then "https://www.purina.fr" +:+ url
  else url.

End SimulationCrawler.

Section ContentExtractorWorker.

Variable _check_bracketed_netloc : string → bool.

(** [ContentExtractorWorker(url, output_folder)] *)
Definition __init__ (url output_folder : string) : option ContentExtractorWorker :=
  r ← urlparse _check_bracketed_netloc url "";
  Some {| url := url; output_folder := output_folder;
          text_block_count := 0; text_image_count := 0;
          base_url := scheme r +:+ "://" +:+ netloc r |}.

(** Convert relative URLs to absolute. *)
Definition _make_absolute (self : ContentExtractorWorker) (url : string)
    : option string :=
  if negb (str.truthy url) then Some EmptyString
  else if str.startswith url "http" then Some url
  else urljoin _check_bracketed_netloc (base_url self) url.

(** Process children while preserving links with formatting: the runs
    appended to the paragraph. *)
Fixpoint _process_children_with_links (self : ContentExtractorWorker)
    (children : list PageElement) : option (list Run) :=
  match children with
  | [] => Some []
  | child :: rest =>
      runs ←
        match node child with
        | NavigableString t => Some (if str.truthy t then [add_run t] else [])
        | Tag _ _ _ _ =>
            if decide (bs4.name child = "a") then
              let link_text := bs4.get_text child in
              link_url ← _make_absolute self (bs4.get_default child "href" "");
              Some (set_font None (Some (0, 0, 255)) true (add_run link_text)
                    :: (if str.truthy link_url
                        then [set_font None (Some (0, 0, 255)) true
                                (add_run (" (" +:+ link_url +:+ ")"))]
                        else []))
            else if bool_decide (bs4.name child ∈ ["strong"; "b"]) then
              Some [set_bold (add_run (bs4.get_text child))]
            else if bool_decide (bs4.name child ∈ ["em"; "i"]) then
              Some [set_italic (add_run (bs4.get_text child))]
            else Some [add_run (bs4.get_text child)]
        end;
      more ← _process_children_with_links self rest;
      Some (runs ++ more)
  end.

(** The Hero Article branch of [_process_special_component]. *)
Definition hero_article (self : ContentExtractorWorker) (doc : Document)
    (element : PageElement) : option Document :=
  doc ←
    match bs4.find (bs4.has_class "hero--article-category") element with
    | Some cat_elem =>
        let cat_text := bs4.get_text_strip cat_elem in
        cat_url ←
          match bs4.find (bs4.has_name ["a"]) cat_elem with
          | Some cat_link => _make_absolute self (bs4.get_default cat_link "href" "")
          | None => Some EmptyString
          end;
        Some (doc ++ [Paragraph None false
                        (set_bold (add_run ("Article category: " +:+ cat_text))
                         :: (if str.truthy cat_url
                             then [set_italic (add_run (" - " +:+ cat_url))]
                             else []))])
    | None => Some doc
    end;
  '(img_url, img_alt) ←
    match bs4.find (bs4.has_class "hero--image") element with
    | Some hero_image_container =>
        match bs4.find (bs4.has_name ["img"]) hero_image_container with
        | Some img_tag =>
            img_url ← _make_absolute self (bs4.get_default img_tag "src" "");
            Some (img_url, str.strip (bs4.get_default img_tag "alt" ""))
        | None => Some ("No image found", EmptyString)
        end
    | None => Some ("No image found", EmptyString)
    end;
  Some (doc ++
        [Table "Table Grid"
           [[ [set_bold (add_run ("IMAGE:" +:+ LF)); add_run img_url];
              [set_bold (add_run "Alt Text: ");
               add_run (if str.truthy img_alt then img_alt else "No Alt Text")] ]];
         add_paragraph "" None]).

(** The data rows of the article table: [enumerate(article_links, 2)]. *)
Fixpoint fill_article_rows (self : ContentExtractorWorker) (element : PageElement)
    (rows : list (nat * PageElement)) (table : list (list Cell))
    : option (list (list Cell)) :=
  match rows with
  | [] => Some table
  | (i, link) :: rest =>
      let title_text := article_title element link in
      article_url ← _make_absolute self (bs4.get_default link "href" "");
      fill_article_rows self element rest
        (alter_cell (set_cell_text article_url) i 1
           (alter_cell (set_cell_text title_text) i 0 table))
  end.

(** The Articles List branch of [_process_special_component]. *)
Definition articles_list (self : ContentExtractorWorker) (doc : Document)
    (element : PageElement) : option Document :=
  let component_title_text :=
    match bs4.find (bs4.has_name ["h2"; "h3"; "h4"]) element with
    | Some component_title => bs4.get_text_strip component_title
    | None => "Articles List"
    end in
  let all_links := bs4.find_all (bs4.has_name ["a"]) element in
  let article_links := article_links_from ∅ all_links in
  doc ←
    match article_links with
    | [] => Some doc
    | _ =>
        let table := add_table (length article_links + 2) 2 in
        let table := alter_cell (λ c, c ++ [set_bold (add_run "Title")]) 0 0 table in
        let table := alter_cell (λ c, c ++ [set_bold (add_run "URL")]) 0 1 table in
        let table :=
          alter_cell (set_cell_text ("Component: " +:+ component_title_text)) 1 0 table in
        let table := alter_cell (set_cell_text "") 1 1 table in
        let table := alter_cell (map set_bold) 1 0 table in
        table ← fill_article_rows self element (enumerate 2 article_links) table;
        Some (doc ++ [Table "Light Grid Accent 1" table])
    end;
  Some (doc ++ [add_paragraph "" None]).

(** The Text Image branch of [_process_special_component]. *)
Definition text_image (self : ContentExtractorWorker) (doc : Document)
    (element : PageElement) : option (ContentExtractorWorker * Document) :=
  let self := set_text_image_count (text_image_count self + 1) self in
  let display_name := "Text Image" +:+ " " +:+ str.of_nat (text_image_count self) in
  let doc := doc ++ [component_marker display_name] in
  '(image_runs, alt_text) ←
    match bs4.find (bs4.has_name ["img"]) element with
    | Some img_tag =>
        img_url ← _make_absolute self (bs4.get_default img_tag "src" "");
        Some ([set_bold (add_run ("IMAGE:" +:+ LF)); add_run img_url],
              str.strip (bs4.get_default img_tag "alt" ""))
    | None => Some ([set_italic (add_run "No Image")], EmptyString)
    end;
  let doc :=
    doc ++
    [Table "Table Grid"
       [[ set_bold (add_run ("Image Position: Left" +:+ LF)) :: image_runs;
          [set_bold (add_run "Alt Text: ");
           add_run (if str.truthy alt_text then alt_text else "No Alt Text")] ]];
     add_paragraph "" None] in
  let doc := doc ++ text_image_body element in
  Some (self, doc ++ [add_paragraph "" None]).

(** The default branch of [_process_special_component]. *)
Definition other_component (self : ContentExtractorWorker) (doc : Document)
    (element : PageElement) (component_name : string) : option Document :=
  let doc := doc ++ [component_marker component_name] in
  let img_tag := bs4.find (bs4.has_name ["img"]) element in
  image_runs ←
    match img_tag with
    | Some img_tag =>
        img_url ← _make_absolute self (bs4.get_default img_tag "src" "");
        Some [set_bold (add_run ("IMAGE:" +:+ LF)); add_run img_url]
    | None => Some [set_italic (add_run "No Image")]
    end;
  let text_parts :=
    container_text_parts
      (bs4.find_all (bs4.class_matches text_container_pattern) element) in
  let text_parts :=
    match text_parts with
    | [] => tag_text_parts
              (bs4.find_all
                 (bs4.has_name ["p"; "h1"; "h2"; "h3"; "h4"; "h5"; "h6"]) element)
    | _ => text_parts
    end in
  let summary_text := str.join (LF +:+ LF) (fromkeys text_parts) in
  let summary_text :=
    if str.truthy summary_text then summary_text
    else str.take 500 (bs4.get_text_sep_strip " " element) in
  Some (doc ++ [Table "Table Grid" [[image_runs; [add_run summary_text]]];
                add_paragraph "" None]).

(** Handle special components (Hero, Text Image, etc.). *)
Definition _process_special_component (self : ContentExtractorWorker)
    (doc : Document) (element : PageElement) (component_name : string)
    : option (ContentExtractorWorker * Document) :=
  if decide (component_name = "Hero Article") then
    doc ← hero_article self doc element; Some (self, doc)
  else if decide (component_name = "Articles List") then
    doc ← articles_list self doc element; Some (self, doc)
  else if decide (component_name = "Text Image") then
    text_image self doc element
  else
    doc ← other_component self doc element component_name; Some (self, doc).

(** Text Block Tagging: the step of [_process_element] that counts and
    marks a text block. *)
Definition tag_text_block (self : ContentExtractorWorker) (doc : Document)
    (class_set : gset string) : ContentExtractorWorker * Document :=
  if decide (target_classes ⊆ class_set) then
    let self := set_text_block_count (text_block_count self + 1) self in
    (self, doc ++ [text_block_marker (text_block_count self)])
  else (self, doc).

(** The component a container element is dispatched to, if any. *)
Definition special_component (name : string) (classes : list string)
    : option string :=
  if bool_decide (name ∈ ["div"; "section"; "article"]) then
    match component_name classes with
    | Some component_name =>
        if str.truthy component_name then Some component_name else None
    | None => None
    end
  else None.

(** Processing Tags: the headings, paragraphs, lists and tables of
    [_process_element]; [None] in the result's first place when the element
    is a container to recurse into. *)
Definition process_tag (self : ContentExtractorWorker) (doc : Document)
    (element : PageElement) : option (option Document) :=
  let name := bs4.name element in
  if decide (name = "h1") then Some (Some doc)
  else if bool_decide (name ∈ ["h2"; "h3"; "h4"; "h5"; "h6"]) then
    runs ← _process_children_with_links self (bs4.children element);
    Some (Some (doc ++ [Heading (heading_level name) runs]))
  else if decide (name = "p") then
    runs ← _process_children_with_links self (bs4.children element);
    Some (Some (doc ++ [Paragraph None false runs]))
  else if bool_decide (name ∈ ["ul"; "ol"]) then
    items ←
      mapM (λ li,
              runs ← _process_children_with_links self (bs4.children li);
              Some (Paragraph
                      (Some (if decide (name = "ul") then "List Bullet"
                             else "List Number")) false runs))
           (bs4.find_all_children (bs4.has_name ["li"]) element);
    Some (Some (doc ++ items))
  else if decide (name = "table") then Some (Some (_process_table doc element))
  else Some None.

(** Recursively process HTML elements. *)
Fixpoint _process_element (self : ContentExtractorWorker) (doc : Document)
    (ps : list Node) (element : Node) {struct element}
    : option (ContentExtractorWorker * Document) :=
  match element with
  | NavigableString _ => Some (self, doc)
  | Tag name attrs classes contents =>
      if bool_decide (name ∈ ["script"; "style"; "nav"; "footer"; "header"; "noscript"])
      then Some (self, doc)
      else
        let class_set : gset string := list_to_set classes in
        if negb (bool_decide (class_set ## exclusions)) then Some (self, doc)
        else if bool_decide (attrs !! "id" = Some "nppe-feedback-article-form")
        then Some (self, doc)
        else
          let '(self, doc) := tag_text_block self doc class_set in
          let here := {| node := element; parents := ps |} in
          match special_component name classes with
          | Some component_name =>
              _process_special_component self doc here component_name
          | None =>
              handled ← process_tag self doc here;
              match handled with
              | Some doc => Some (self, doc)
              | None =>
                  (fix children (self : ContentExtractorWorker) (doc : Document)
                       (cs : list Node) {struct cs}
                     : option (ContentExtractorWorker * Document) :=
                     match cs with
                     | [] => Some (self, doc)
                     | child :: cs' =>
                         match child with
                         | Tag _ _ _ _ =>
                             '(self, doc) ←
                               _process_element self doc (element :: ps) child;
                             children self doc cs'
                         | NavigableString s =>
                             let t := str.strip s in
                             children self
                               (if Nat.ltb 20 (str.len t)
                                then doc ++ [add_paragraph t None] else doc)
                               cs'
                         end
                     end) self doc contents
              end
          end
  end.

(** Add SEO metadata table at the end of the document. An exception inside
    is caught and logged, the heading paragraph staying in the document. *)
Definition _add_seo_metadata_table (self : ContentExtractorWorker)
    (doc : Document) (soup : PageElement) : Document :=
  let doc :=
    doc ++ [Paragraph None false
              [set_font (Some 12) (Some (0, 112, 192)) false
                 (set_bold (add_run "SEO METADATA"))]] in
  match urlparse _check_bracketed_netloc (url self) "" with
  | None => doc
  | Some parsed =>
      let url_path := path parsed in
      let meta_title_text :=
        match bs4.find (bs4.has_name ["title"]) soup with
        | Some meta_title =>
            match bs4.string_ meta_title with
            | Some t => if str.truthy t then str.strip t else "No Meta Title"
            | None => "No Meta Title"
            end
        | None => "No Meta Title"
        end in
      let meta_content (p : PageElement → bool) (missing : string) : string :=
        match bs4.find (λ e, bs4.has_name ["meta"] e && p e) soup with
        | Some m => bs4.get_default m "content" missing
        | None => missing
        end in
      let meta_desc_text :=
        meta_content (λ e, bool_decide (bs4.get e "name" = Some "description"))
          "No Meta Description" in
      let og_title_text :=
        meta_content (λ e, bool_decide (bs4.get e "property" = Some "og:title"))
          "No OG Title" in
      let og_desc_text :=
        meta_content (λ e, bool_decide (bs4.get e "property" = Some "og:description"))
          "No OG Description" in
      let schemas :=
        bs4.find_all (λ e, bs4.has_name ["script"] e
                           && bool_decide (bs4.get e "type" = Some "application/ld+json"))
          soup in
      let schema_text :=
        match schemas with
        | [] => "No Schema"
        | _ =>
            let schema_texts :=
              omap (λ s, match bs4.string_ s with
                         | Some t => if str.truthy t then Some (str.strip t) else None
                         | None => None
                         end) schemas in
            let schema_text := str.join (LF +:+ "---" +:+ LF) schema_texts in
            if Nat.ltb 2000 (str.len schema_text)
            then str.take 2000 schema_text +:+ "...[truncated]"
            else schema_text
        end in
      let metadata_rows :=
        [("Internal URL", url_path); ("Meta Title", meta_title_text);
         ("Meta Description", meta_desc_text); ("OG Title", og_title_text);
         ("OG Description", og_desc_text); ("Schema", schema_text)] in
      doc ++ [Table "Light Grid Accent 1"
                (foldl (λ table ir,
                          alter_cell (set_cell_text ir.2.2) ir.1 1
                            (alter_cell (λ c, c ++ [set_bold (add_run ir.2.1)])
                               ir.1 0 table))
                       (add_table 6 2) (enumerate 0 metadata_rows))]
  end.

(** [soup.find('main') or soup.find('body')] *)
Definition main_content (soup : PageElement) : option PageElement :=
  match bs4.find (bs4.has_name ["main"]) soup with
  | Some m => Some m
  | None => bs4.find (bs4.has_name ["body"]) soup
  end.

(** Generate structured Word document from HTML: the worker after the call
    and the document that is saved. The file name and the write to disk are
    outside the model. *)
Definition _save_to_docx (self : ContentExtractorWorker) (url : string)
    (soup : PageElement) : option (ContentExtractorWorker * Document) :=
  let doc : Document :=
    [Paragraph None true
       [set_font (Some 14) (Some (0, 112, 192)) false
          (set_bold (add_run ("Source: " +:+ url)))];
     add_paragraph "" None] in
  let doc :=
    match bs4.find (bs4.has_name ["h1"]) soup with
    | Some h1 => doc ++ [add_heading (bs4.get_text_strip h1) 1; add_paragraph "" None]
    | None => doc
    end in
  let self := set_text_block_count 0 self in
  let self := set_text_image_count 0 self in
  '(self, doc) ←
    match main_content soup with
    | Some main_content =>
        _process_element self doc (parents main_content) (node main_content)
    | None => Some (self, doc ++ [add_paragraph "No main content found." None])
    end;
  let doc := doc ++ [add_paragraph "" None] in
  Some (self, _add_seo_metadata_table self doc soup).

(** The loop of [_process_element] over [element.children], [ps] being the
    parent chain of the children. *)
Definition process_children (self : ContentExtractorWorker) (doc : Document)
    (ps : list Node) (cs : list Node)
    : option (ContentExtractorWorker * Document) :=
  (fix children (self : ContentExtractorWorker) (doc : Document)
       (cs : list Node) {struct cs}
     : option (ContentExtractorWorker * Document) :=
     match cs with
     | [] => Some (self, doc)
     | child :: cs' =>
         match child with
         | Tag _ _ _ _ =>
             '(self, doc) ← _process_element self doc ps child;
             children self doc cs'
         | NavigableString s =>
             let t := str.strip s in
             children self
               (if Nat.ltb 20 (str.len t) then doc ++ [add_paragraph t None] else doc)
               cs'
         end
     end) self doc cs.

(** The tags the walker never descends into. *)
Definition never_descend : list string :=
  ["script"; "style"; "nav"; "footer"; "header"; "noscript"].

(** ** The occurrences the walker meets

    What the numbering of the markers is stated against: the text blocks and
    components of a tree in the order in which [_process_element] reaches
    them. The function follows the walker's control flow and appends
    nothing. *)

Inductive Occurrence :=
| TextBlock
| Component (component_name : string).

(** The tags [process_tag] handles itself, without a loop over the children. *)
Definition handled_tags : list string :=
  ["h1"; "h2"; "h3"; "h4"; "h5"; "h6"; "p"; "ul"; "ol"; "table"].

Fixpoint occurrences (element : Node) : list Occurrence :=
  match element with
  | NavigableString _ => []
  | Tag name attrs classes contents =>
      if bool_decide (name ∈ never_descend)
         || negb (bool_decide ((list_to_set classes : gset string) ## exclusions))
         || bool_decide (attrs !! "id" = Some "nppe-feedback-article-form")
      then []
      else
        (if decide (target_classes ⊆ (list_to_set classes : gset string))
         then [TextBlock] else [])
        ++ match special_component name classes with
           | Some component_name => [Component component_name]
           | None =>
               if bool_decide (name ∈ handled_tags) then []
               else flat_map occurrences contents
           end
  end.

Definition is_text_block (o : Occurrence) : bool :=
  match o with TextBlock => true | Component _ => false end.

(** The components that get a marker paragraph: all but the hero article and
    the article list. *)
Definition marked_components (occs : list Occurrence) : list string :=
  omap (λ o, match o with
             | Component name =>
                 if bool_decide (name ∈ ["Hero Article"; "Articles List"])
                 then None else Some name
             | TextBlock => None
             end) occs.

Definition is_text_image (name : string) : bool := bool_decide (name = "Text Image").

(** The texts of the marker paragraphs found in a document: a paragraph of
    the default style that consists of one 9 pt run in the marker's colour and
    face. *)
Definition marker_text (color : nat * nat * nat) (is_bold is_italic : bool)
    (b : Block) : option string :=
  match b with
  | Paragraph None false [r] =>
      if bool_decide (font_size r = Some 9 ∧ font_color r = Some color
                      ∧ bold r = is_bold ∧ italic r = is_italic
                      ∧ underline r = false)
      then Some (text r) else None
  | _ => None
  end.

Definition component_markers (doc : Document) : list string :=
  omap (marker_text (100, 100, 100) false true) doc.

Definition text_block_markers (doc : Document) : list string :=
  omap (marker_text (0, 100, 0) true false) doc.

Definition text_block_marker_text (n : nat) : string :=
  "[COMPONENT: Text Block " +:+ str.of_nat n +:+ "]".

Definition component_marker_text (display_name : string) : string :=
  "[COMPONENT: " +:+ display_name +:+ "]".

(** The display names of the marked components, the text images numbered
    from [text_image_count + 1] on. *)
Fixpoint display_names (text_image_count : nat) (names : list string) : list string :=
  match names with
  | [] => []
  | name :: rest =>
      if is_text_image name
      then ("Text Image " +:+ str.of_nat (S text_image_count))
             :: display_names (S text_image_count) rest
      else name :: display_names text_image_count rest
  end.

(** What one step of the walk adds: the blocks appended, the markers among
    them, the counters, and the fields that stay. *)
Definition extends (self : ContentExtractorWorker) (doc : Document)
    (occs : list Occurrence) (self' : ContentExtractorWorker) (doc' : Document)
    : Prop :=
  ∃ blocks,
    doc' = doc ++ blocks
    ∧ text_block_markers blocks
      = map text_block_marker_text
          (seq (S (text_block_count self)) (length (List.filter is_text_block occs)))
    ∧ component_markers blocks
      = map component_marker_text
          (display_names (text_image_count self) (marked_components occs))
    ∧ text_block_count self'
      = text_block_count self + length (List.filter is_text_block occs)
    ∧ text_image_count self'
      = text_image_count self
        + length (List.filter is_text_image (marked_components occs))
    ∧ url self' = url self
    ∧ output_folder self' = output_folder self
    ∧ base_url self' = base_url self.

(** The occurrences met by one extraction call: those of the main content. *)
Definition occurrences_of_page (soup : PageElement) : list Occurrence :=
  match main_content soup with
  | Some main_content => occurrences (node main_content)
  | None => []
  end.

(** ** The grid of a rendered table

    What the table renderers are stated against: row [i] of the grid comes
    from the [i]th row element, its cell [j] from the row's [j]th cell element
    when there is one, and is an empty cell otherwise. *)
Definition rendered_grid (render : PageElement → Cell) (col_count : nat)
    (rows : list PageElement) : list (list Cell) :=
  map (λ row,
         map (λ j, match table_cells row !! j with
                   | Some cell => render cell
                   | None => []
                   end) (seq 0 col_count)) rows.

(** The rows of an HTML table and the largest number of cells in one. *)
Definition table_rows (table_element : PageElement) : list PageElement :=
  bs4.find_all (bs4.has_name ["tr"]) table_element.

Definition table_col_count (table_element : PageElement) : nat :=
  max_list (map (λ row, length (table_cells row)) (table_rows table_element)).

(** ** The pages the divergences are shown on *)

(** [<table><tr><th> Name </th><th>Age</th></tr><tr><td>Rex</td><td>3</td></tr></table>] *)
Definition table_with_header : PageElement :=
  {| node :=
       Tag "table" ∅ []
         [Tag "tr" ∅ [] [Tag "th" ∅ [] [NavigableString " Name "];
                         Tag "th" ∅ [] [NavigableString "Age"]];
          Tag "tr" ∅ [] [Tag "td" ∅ [] [NavigableString "Rex"];
                         Tag "td" ∅ [] [NavigableString "3"]]];
     parents := [] |}.

(** [<div><p>Aidez-nous à nous améliorer</p><button>Oui</button><button>Non</button></div>]:
    a feedback widget that carries no class and no id. *)
Definition feedback_widget : Node :=
  Tag "div" ∅ []
    [Tag "p" ∅ [] [NavigableString SimulationCrawler.feedback_prompt];
     Tag "button" ∅ [] [NavigableString "Oui"];
     Tag "button" ∅ [] [NavigableString "Non"]].

(** ** Anchors of an article list *)

(** The [href] of an anchor as the renderer reads it: [link.get('href', '')]. *)
Definition href (link : PageElement) : string := bs4.get_default link "href" "".

(** The anchor sits directly under a category field. *)
Definition under_category_field (link : PageElement) : Prop :=
  "field--name-field-article-category"
  ∈ match bs4.parent link with
    | Some parent => bs4.get_class parent
    | None => []
    end.

(** The anchors the renderer keeps for an element. *)
Definition article_links (element : PageElement) : list PageElement :=
  article_links_from ∅ (bs4.find_all (bs4.has_name ["a"]) element).

(** The title the renderer gives the article list. *)
Definition component_title_text (element : PageElement) : string :=
  match bs4.find (bs4.has_name ["h2"; "h3"; "h4"]) element with
  | Some component_title => bs4.get_text_strip component_title
  | None => "Articles List"
  end.

(** The two leading rows of an article table and the row of one article. *)
Definition article_table_head (element : PageElement) : list (list Cell) :=
  [[[set_bold (add_run "Title")]; [set_bold (add_run "URL")]];
   [[set_bold (add_run ("Component: " +:+ component_title_text element))];
    [add_run ""]]].

Definition article_row (element link : PageElement) (article_url : string)
    : list Cell :=
  [[add_run (article_title element link)]; [add_run article_url]].

(** The hrefs seen once the loop is through a list of anchors. *)
Definition seen_after (seen : gset string) (links : list PageElement) : gset string :=
  list_to_set (map href (article_links_from seen links)) ∪ seen.

(** ** Plain origins and plain paths

    The references for which joining is concatenation. A plain path starts
    with exactly one slash, holds no query, fragment or parameter delimiter
    and no tab or line break (which [urlsplit] would remove), and none of its
    segments is a dot segment. A plain host is not empty and holds no
    delimiter, bracket, tab or line break. *)

Definition is_unsafe_byte (c : ascii) : bool :=
  str.has c (String "009" (String "013" (String "010" EmptyString))).


Definition plain_host_char (c : ascii) : bool :=
  negb (str.has c "/?#[]") && negb (is_unsafe_byte c).

Definition is_dot_segment (seg : string) : bool := bool_decide (seg ∈ ["."; ".."]).


Definition is_plain_host (host : string) : bool :=
  str.truthy host && str.all plain_host_char host.

(** ** Example pages and workers *)

(** The bracket validation of a CPython without [_check_bracketed_netloc]:
    it accepts every network location. No URL in the examples below holds a
    bracket, so the validation is never consulted on them. *)
Definition accept_bracketed_netloc : string → bool := λ _, true.

(** The worker made for the page [https://www.example.com/page]. *)
Definition example_worker : ContentExtractorWorker :=
  {| url := "https://www.example.com/page"; output_folder := "out";
     text_block_count := 0; text_image_count := 0;
     base_url := "https://www.example.com" |}.

(** Two anchors of one article list whose [href]s differ as written and
    resolve to the same URL. *)
Definition article_list_with_two_references : PageElement :=
  {| node :=
       Tag "div" ∅ ["component--articles-list"]
         [Tag "a" {[ "href" := "/article-1" ]} [] [NavigableString "Read more"];
          Tag "a" {[ "href" := "https://www.example.com/article-1" ]} []
            [NavigableString "Article one"]];
     parents := [] |}.

(** Scenario C: two anchors of one article list, both pointing to
    [/article-1], with different texts. *)
Definition article_list_scenario_C : PageElement :=
  {| node :=
       Tag "div" ∅ ["component--articles-list"]
         [Tag "a" {[ "href" := "/article-1" ]} [] [NavigableString "Article one"];
          Tag "a" {[ "href" := "/article-1" ]} [] [NavigableString "Read more"]];
     parents := [] |}.

(** An article list whose only anchors are a category link and an anchor
    without [href]. *)
Definition article_list_without_articles : PageElement :=
  {| node :=
       Tag "div" ∅ ["component--articles-list"]
         [Tag "div" ∅ ["field--name-field-article-category"]
            [Tag "a" {[ "href" := "/dogs" ]} [] [NavigableString "Dogs"]];
          Tag "a" ∅ [] [NavigableString "Top"]];
     parents := [] |}.

(** Scenario E: a table of two rows, with three and with two cells. *)
Definition table_scenario_E : PageElement :=
  {| node :=
       Tag "table" ∅ []
         [Tag "tr" ∅ [] [Tag "td" ∅ [] [NavigableString "a"];
                         Tag "td" ∅ [] [NavigableString "b"];
                         Tag "td" ∅ [] [NavigableString "c"]];
          Tag "tr" ∅ [] [Tag "td" ∅ [] [NavigableString "d"];
                         Tag "td" ∅ [] [NavigableString "e"]]];
     parents := [] |}.

Definition text_block_classes : list string :=
  ["clearfix"; "text-formatted"; "field"; "field--name-field-c-text";
   "field--type-text-long"; "field--label-hidden"; "field__item"].

(** Scenario B: a text-image component with an image and a paragraph. *)
Definition text_image_scenario_B : Node :=
  Tag "div" ∅ ["component"; "component--text-image"]
    [Tag "img" {[ "src" := "/a.jpg"; "alt" := "x" ]} [] [];
     Tag "p" ∅ [] [NavigableString "Body"]].

(** A page with a text block, two text-image components and a contact
    component between them. *)
Definition page_with_components : PageElement :=
  bs4.BeautifulSoup
    [Tag "html" ∅ []
       [Tag "body" ∅ []
          [Tag "h1" ∅ [] [NavigableString "Title"];
           Tag "div" ∅ text_block_classes [Tag "p" ∅ [] [NavigableString "Hello"]];
           text_image_scenario_B;
           Tag "section" ∅ ["component--contact"] [];
           text_image_scenario_B]]].

(** An excluded element with a text-image component inside. *)
Definition excluded_with_component : Node :=
  Tag "div" ∅ ["article-author-bottom"] [text_image_scenario_B].

(** A text block that is a generic component as well. *)
Definition text_block_and_component : Node :=
  Tag "div" ∅ (text_block_classes ++ ["component--contact"])
    [Tag "p" ∅ [] [NavigableString "Unvisited"]].

(** ** The name of the saved file

    The file name that [_save_to_docx] builds from the page URL, and
    [CrawlerThread._save_to_docx] with the same expressions: every character
    of the class of reserved characters is replaced by an underscore
    ([re.sub]), the first 100 characters are kept and [.docx] is appended. *)

(** The characters of the class: [<], [>], [:], the double quote, [/], the
    backslash, [|], [?] and [*]. *)
Definition reserved_chars : string := "<>:" +:+ String "034" "/\|?*".

Definition is_reserved (c : ascii) : bool := str.has c reserved_chars.

(** [re.sub] of the class by an underscore *)
Fixpoint sub_reserved (s : string) : string :=
  match s with
  | EmptyString => EmptyString
  | String a s' => String (if is_reserved a then "_"%char else a) (sub_reserved s')
  end.

Definition safe_filename (url : string) : string :=
  str.take 100 (sub_reserved url) +:+ ".docx".

(** ** The text of a block

    [paragraph.text] of [python-docx]: the texts of the runs, concatenated. *)

Definition paragraph_text (runs : list Run) : string := str.join "" (map text runs).

Definition block_text (b : Block) : string :=
  match b with
  | Paragraph _ _ runs | Heading _ runs => paragraph_text runs
  | Table _ _ => EmptyString
  end.

(** A token that makes the loop over the class tokens stop. *)
Definition names_component (cls : string) : bool :=
  str.startswith cls "component--"
  || bool_decide (cls ∈ ["article--hero"; "hero--image"]).

(** ** The SEO table *)





(** ** Styles and heading levels

    What a block asks of [python-docx]: a paragraph or table style that the
    default template has, and a heading level, which [add_heading] takes
    from 0 to 9. *)

Definition uses_known_style (b : Block) : bool :=
  match b with
  | Paragraph style _ _ =>
      bool_decide (style ∈ [None; Some "List Bullet"; Some "List Number"])
  | Heading level _ => Nat.leb 1 level && Nat.leb level 6
  | Table style _ => bool_decide (style ∈ ["Table Grid"; "Light Grid Accent 1"])
  end.

(** A heading of level 1, the level of the page title. *)
Definition is_title_heading (b : Block) : bool :=
  match b with Heading 1 _ => true | _ => false end.

(** The blocks the walker may append: known styles, no title heading. *)
Definition walker_block (b : Block) : bool :=
  uses_known_style b && negb (is_title_heading b).

(** ** Texts without square brackets

    [urlsplit] raises [ValueError] only on a network location that holds a
    square bracket. A text is bracket-free when it holds neither [[] nor
    []]; a tree is when the [href] and [src] attributes of all its tags
    are. *)




(** ** Rooted references

    The references that start with one slash and that [urlparse] and
    [urlunparse] put together again as they were written: no tab or line
    break (which [urlsplit] removes), no [.] or [..] segment in the path
    (which [urljoin] resolves), and a fragment, a query and parameters that
    are not empty where their delimiter is written (an empty part is dropped
    together with its delimiter). The parts are split off as [urlparse]
    does: the fragment at the first [#], the query at the first [?] before
    it, the parameters at the first [;] of the last path segment. *)

Definition is_rooted_reference (reference : string) : bool :=
  str.startswith reference "/" && negb (str.startswith reference "//")
  && str.all (λ c, negb (is_unsafe_byte c)) reference
  && let '(rest, fragment) := split_at "#" reference in
     let '(rest', query) := split_at "?" rest in
     let '(path, params) :=
       if str.has ";" rest' then _splitparams rest' else (rest', EmptyString) in
     implb (str.has "#" reference) (str.truthy fragment)
     && implb (str.has "?" rest) (str.truthy query)
     && implb (negb (bool_decide (path = rest'))) (str.truthy params)
     && forallb (λ seg, negb (is_dot_segment seg)) (str.split "/" path).

(** A text block that is no component: a paragraph, a direct text and a
    nested text block with a heading. *)
Definition text_block_with_children : Node :=
  Tag "div" ∅ text_block_classes
    [Tag "p" ∅ [] [NavigableString "Hello"];
     NavigableString " A direct text of some length. ";
     Tag "div" ∅ text_block_classes [Tag "h2" ∅ [] [NavigableString "Inner"]]].

(** Text blocks that the exclusion tests stop: one with the newsletter
    class, one in a [nav] tag, one with the feedback id. *)
Definition excluded_text_blocks : list Node :=
  [Tag "div" ∅ (text_block_classes ++ ["component--newsletter"])
     [Tag "p" ∅ [] [NavigableString "Subscribe"]];
   Tag "nav" ∅ text_block_classes [Tag "p" ∅ [] [NavigableString "Menu"]];
   Tag "div" {[ "id" := "nppe-feedback-article-form" ]} text_block_classes
     [Tag "p" ∅ [] [NavigableString "Feedback"]]].

(** * Properties *)


Lemma _process_element_Tag self doc ps name attrs classes contents :
  _process_element self doc ps (Tag name attrs classes contents) =
    if bool_decide (name ∈ never_descend) then Some (self, doc)
    else if negb (bool_decide ((list_to_set classes : gset string) ## exclusions))
    then Some (self, doc)
    else if bool_decide (attrs !! "id" = Some "nppe-feedback-article-form")
    then Some (self, doc)
    else
      let here := {| node := Tag name attrs classes contents; parents := ps |} in
      let st := tag_text_block self doc (list_to_set classes) in
      match special_component name classes with
      | Some component_name =>
          _process_special_component st.1 st.2 here component_name
      | None =>
          handled ← process_tag st.1 st.2 here;
          match handled with
          | Some doc => Some (st.1, doc)
          | None =>
              process_children st.1 st.2 (Tag name attrs classes contents :: ps)
                contents
          end
      end.
Proof.
  cbn [_process_element]. unfold never_descend.
  repeat (case_match; try reflexivity); reflexivity.
Qed.

Lemma process_children_nil self doc ps :
  process_children self doc ps [] = Some (self, doc).
Proof. reflexivity. Qed.

Lemma process_children_tag self doc ps name attrs classes contents cs :
  process_children self doc ps (Tag name attrs classes contents :: cs) =
    st ← _process_element self doc ps (Tag name attrs classes contents);
    process_children st.1 st.2 ps cs.
Proof.
  unfold process_children at 1.
  destruct (_process_element _ _ _ _) as [[]|]; reflexivity.
Qed.

Lemma process_children_string self doc ps s cs :
  process_children self doc ps (NavigableString s :: cs) =
    process_children self
      (if Nat.ltb 20 (str.len (str.strip s))
       then doc ++ [add_paragraph (str.strip s) None] else doc) ps cs.
Proof. reflexivity. Qed.

(** ** The exclusion filter and the text-block step *)

(** C4. An element one of whose class tokens is in the exclusion set, or
    whose [id] is the feedback widget's, appends nothing: whatever its tag,
    its other attributes and its whole subtree are, the walker returns the
    worker and the document exactly as it received them. *)
Theorem C4_excluded_element_appends_nothing self doc ps name attrs classes contents :
  (∃ token, token ∈ classes ∧ token ∈ exclusions)
  ∨ attrs !! "id" = Some "nppe-feedback-article-form" →
  _process_element self doc ps (Tag name attrs classes contents) = Some (self, doc).
Proof.
  intros Hex. rewrite _process_element_Tag.
  case_bool_decide as Hname; [reflexivity|].
  case_bool_decide as Hdisj; simpl; [|reflexivity].
  case_bool_decide as Hid; [reflexivity|].
  destruct Hex as [(token & Hin & Hexcl)|Hfeedback]; [|congruence].
  exfalso. apply (Hdisj token); [|exact Hexcl].
  apply elem_of_list_to_set. exact Hin.
Qed.


(** ** The numbering of the markers *)

Lemma Node_nested_ind (P : Node → Prop) :
  (∀ t, P (NavigableString t)) →
  (∀ name attrs classes contents, Forall P contents → P (Tag name attrs classes contents)) →
  ∀ n, P n.
Proof.
  intros Hstring Htag. fix IH 1. intros [name attrs classes contents|t].
  - apply Htag. induction contents as [|c cs IHcs]; constructor; [apply IH|exact IHcs].
  - apply Hstring.
Qed.

Lemma display_names_app n l1 l2 :
  display_names n (l1 ++ l2)
  = display_names n l1 ++ display_names (n + length (List.filter is_text_image l1)) l2.
Proof.
  revert n. induction l1 as [|x l1 IH]; intros n; simpl.
  - f_equal. lia.
  - destruct (is_text_image x) eqn:Hx; simpl; rewrite IH, ?Nat.add_succ_r; reflexivity.
Qed.

Lemma marked_components_app o1 o2 :
  marked_components (o1 ++ o2) = marked_components o1 ++ marked_components o2.
Proof. unfold marked_components. apply omap_app. Qed.

Lemma extends_refl self doc : extends self doc [] self doc.
Proof.
  exists []. rewrite app_nil_r. simpl. repeat split; lia.
Qed.

Lemma extends_trans self doc o1 self1 doc1 o2 self2 doc2 :
  extends self doc o1 self1 doc1 →
  extends self1 doc1 o2 self2 doc2 →
  extends self doc (o1 ++ o2) self2 doc2.
Proof.
  intros (b1 & -> & Htb1 & Hc1 & Hn1 & Hi1 & Hu1 & Ho1 & Hb1)
         (b2 & -> & Htb2 & Hc2 & Hn2 & Hi2 & Hu2 & Ho2 & Hb2).
  exists (b1 ++ b2). rewrite <- app_assoc.
  rewrite marked_components_app, !List.filter_app, !length_app.
  unfold text_block_markers, component_markers in *. rewrite !omap_app.
  rewrite Htb1, Htb2, Hc1, Hc2, Hn1, Hi1. rewrite display_names_app.
  rewrite seq_app, !map_app.
  repeat split; try congruence; try lia.
Qed.

(** Blocks without markers leave the account as it is. *)
Lemma extends_plain self doc blocks :
  text_block_markers blocks = [] →
  component_markers blocks = [] →
  extends self doc [] self (doc ++ blocks).
Proof.
  intros Htb Hc. exists blocks. rewrite Htb, Hc. simpl. repeat split; lia.
Qed.

Lemma marker_text_component_marker name :
  marker_text (100, 100, 100) false true (component_marker name)
  = Some (component_marker_text name).
Proof. reflexivity. Qed.

Lemma marker_text_text_block_marker n :
  marker_text (0, 100, 0) true false (text_block_marker n)
  = Some (text_block_marker_text n).
Proof. reflexivity. Qed.

Lemma marker_text_other_component_marker name :
  marker_text (0, 100, 0) true false (component_marker name) = None.
Proof. reflexivity. Qed.

Lemma marker_text_other_text_block_marker n :
  marker_text (100, 100, 100) false true (text_block_marker n) = None.
Proof. reflexivity. Qed.

Lemma marker_text_unsized color b i style centered runs :
  Forall (λ r, font_size r = None) runs →
  marker_text color b i (Paragraph style centered runs) = None.
Proof.
  intros Hruns. destruct style, centered, runs as [|r [|r' runs]]; try reflexivity.
  apply Forall_cons in Hruns as [Hr _]. unfold marker_text.
  rewrite bool_decide_eq_false_2; [reflexivity|]. intros [Hsize _]. congruence.
Qed.

Lemma marker_text_add_paragraph color b i t style :
  marker_text color b i (add_paragraph t style) = None.
Proof.
  apply marker_text_unsized. destruct (str.truthy t); repeat constructor.
Qed.

Lemma extends_unmarked self doc occs blocks :
  List.filter is_text_block occs = [] →
  marked_components occs = [] →
  text_block_markers blocks = [] →
  component_markers blocks = [] →
  extends self doc occs self (doc ++ blocks).
Proof.
  intros Hocc Hmarked Htb Hc. exists blocks.
  rewrite Hocc, Hmarked, Htb, Hc. simpl. repeat split; lia.
Qed.

Lemma hero_article_extends self doc element doc' :
  hero_article self doc element = Some doc' →
  extends self doc [Component "Hero Article"] self doc'.
Proof.
  unfold hero_article. intros H.
  repeat (simplify_option_eq || case_match);
    rewrite <- ?app_assoc; apply extends_unmarked; reflexivity.
Qed.

Lemma articles_list_extends self doc element doc' :
  articles_list self doc element = Some doc' →
  extends self doc [Component "Articles List"] self doc'.
Proof.
  unfold articles_list. intros H.
  repeat (simplify_option_eq || case_match);
    rewrite <- ?app_assoc; apply extends_unmarked; reflexivity.
Qed.

Lemma omap_cons_None {A B} (f : A → option B) x l :
  f x = None → omap f (x :: l) = omap f l.
Proof. intros H. cbn. rewrite H. reflexivity. Qed.

Lemma omap_cons_Some {A B} (f : A → option B) x y l :
  f x = Some y → omap f (x :: l) = y :: omap f l.
Proof. intros H. cbn. rewrite H. reflexivity. Qed.

Lemma text_image_content_unmarked color b i seen tags :
  omap (marker_text color b i) (text_image_content seen tags) = [].
Proof.
  revert seen. induction tags as [|tag tags IH]; intros seen; [reflexivity|].
  cbn [text_image_content]. repeat case_match; try apply IH.
  all: rewrite omap_cons_None
         by first [apply marker_text_add_paragraph|reflexivity]; apply IH.
Qed.

Lemma text_image_fallback_unmarked color b i seen containers :
  omap (marker_text color b i) (text_image_fallback seen containers) = [].
Proof.
  revert seen. induction containers as [|c cs IH]; intros seen; [reflexivity|].
  cbn [text_image_fallback]. case_match; [|apply IH].
  rewrite omap_cons_None by apply marker_text_add_paragraph. apply IH.
Qed.

Lemma text_image_body_unmarked color b i element :
  omap (marker_text color b i) (text_image_body element) = [].
Proof.
  unfold text_image_body. case_match.
  - apply text_image_fallback_unmarked.
  - apply text_image_content_unmarked.
Qed.

Lemma text_image_extends self doc element self' doc' :
  text_image self doc element = Some (self', doc') →
  extends self doc [Component "Text Image"] self' doc'.
Proof.
  unfold text_image. intros H.
  pose proof (text_image_body_unmarked (0, 100, 0) true false element) as Htb.
  pose proof (text_image_body_unmarked (100, 100, 100) false true element) as Hc.
  destruct (bs4.find (bs4.has_name ["img"]) element) as [img_tag|];
    simplify_option_eq.
  all: rewrite <- ?app_assoc; eexists; split; [reflexivity|].
  all: unfold text_block_markers, component_markers.
  all: rewrite ?omap_app, ?Htb, ?Hc, ?Nat.add_1_r.
  all: repeat split; try reflexivity; simpl; lia.
Qed.

Lemma other_component_extends self doc element name doc' :
  name ∉ ["Hero Article"; "Articles List"] →
  name ≠ "Text Image" →
  other_component self doc element name = Some doc' →
  extends self doc [Component name] self doc'.
Proof.
  unfold other_component. intros Hname Hti H.
  assert (∃ image_runs summary_text,
    doc' = doc ++ [component_marker name;
                   Table "Table Grid" [[image_runs; [add_run summary_text]]];
                   add_paragraph "" None]) as (image_runs & summary_text & ->).
  { destruct (bs4.find (bs4.has_name ["img"]) element) as [img_tag|];
      simplify_option_eq; rewrite <- ?app_assoc; eauto. }
  clear H. eexists; split; [reflexivity|].
  unfold marked_components. cbn [omap list_omap].
  rewrite (bool_decide_eq_false_2 _ Hname). cbn [display_names List.filter].
  unfold is_text_image. rewrite (bool_decide_eq_false_2 _ Hti).
  repeat split; try reflexivity; simpl; lia.
Qed.

Lemma _process_special_component_extends self doc element name self' doc' :
  _process_special_component self doc element name = Some (self', doc') →
  extends self doc [Component name] self' doc'.
Proof.
  unfold _process_special_component. intros H.
  repeat case_decide; simplify_option_eq.
  - by eapply hero_article_extends.
  - by eapply articles_list_extends.
  - by eapply text_image_extends.
  - eapply other_component_extends; [|done..].
    rewrite !elem_of_cons, elem_of_nil. intros [?|[?|[]]]; congruence.
Qed.

Lemma _process_children_with_links_unsized self children runs :
  _process_children_with_links self children = Some runs →
  Forall (λ r, font_size r = None) runs.
Proof.
  revert runs. induction children as [|child rest IH]; intros runs H.
  - simplify_eq/=. constructor.
  - cbn [_process_children_with_links] in H.
    apply bind_Some in H as (here & Hhere & H).
    apply bind_Some in H as (more & Hmore & H). simplify_eq.
    apply Forall_app. split; [|by apply IH].
    clear IH Hmore. repeat (case_match || simplify_option_eq); repeat constructor.
Qed.

Lemma process_tag_spec self doc here handled :
  process_tag self doc here = Some handled →
  match handled with
  | Some doc' =>
      bs4.name here ∈ handled_tags
      ∧ ∃ blocks, doc' = doc ++ blocks
                  ∧ text_block_markers blocks = []
                  ∧ component_markers blocks = []
  | None => bs4.name here ∉ handled_tags
  end.
Proof.
  unfold process_tag, handled_tags. intros H.
  destruct (decide (bs4.name here = "h1")) as [Hh1|Hh1].
  { simplify_eq. split; [rewrite Hh1; set_solver|].
    exists []. by rewrite app_nil_r. }
  case_bool_decide as Hh.
  { apply bind_Some in H as (runs & Hruns & H). simplify_eq.
    split; [set_solver|]. eexists; split; [reflexivity|]. split; reflexivity. }
  destruct (decide (bs4.name here = "p")) as [Hp|Hp].
  { apply bind_Some in H as (runs & Hruns & H). simplify_eq.
    split; [rewrite Hp; set_solver|]. eexists; split; [reflexivity|].
    apply _process_children_with_links_unsized in Hruns.
    unfold text_block_markers, component_markers.
    rewrite !omap_cons_None by (by apply marker_text_unsized). done. }
  case_bool_decide as Hl.
  { apply bind_Some in H as (items & Hitems & H). simplify_eq.
    split; [set_solver|]. eexists; split; [reflexivity|].
    apply mapM_Some in Hitems.
    unfold text_block_markers, component_markers.
    induction Hitems as [|li item lis items Hitem _ IH]; [done|].
    apply bind_Some in Hitem as (runs & _ & Hitem). simplify_eq.
    rewrite !omap_cons_None by reflexivity. exact IH. }
  destruct (decide (bs4.name here = "table")) as [Ht|Ht].
  { simplify_eq. split; [rewrite Ht; set_solver|].
    unfold _process_table. case_match.
    - exists []. by rewrite app_nil_r.
    - eexists; split; [reflexivity|]. split; reflexivity. }
  simplify_eq. set_solver.
Qed.

Lemma tag_text_block_extends self doc class_set :
  let st := tag_text_block self doc class_set in
  extends self doc
    (if decide (target_classes ⊆ class_set) then [TextBlock] else [])
    st.1 st.2.
Proof.
  unfold tag_text_block. case_decide; [|apply extends_refl].
  eexists; split; [reflexivity|]. simpl. rewrite Nat.add_1_r.
  repeat split; try reflexivity; lia.
Qed.

Lemma process_children_extends self doc ps contents self' doc' :
  Forall (λ child, ∀ ps self doc self' doc',
            _process_element self doc ps child = Some (self', doc') →
            extends self doc (occurrences child) self' doc') contents →
  process_children self doc ps contents = Some (self', doc') →
  extends self doc (flat_map occurrences contents) self' doc'.
Proof.
  intros Hall. revert self doc.
  induction Hall as [|child cs Hchild _ IH]; intros self doc H.
  - rewrite process_children_nil in H. simplify_eq. apply extends_refl.
  - destruct child as [name attrs classes contents|s].
    + rewrite process_children_tag in H.
      apply bind_Some in H as ([self1 doc1] & Hfirst & Hrest).
      simpl. eapply extends_trans; [by eapply Hchild|by apply IH].
    + rewrite process_children_string in H. apply IH in H.
      change (flat_map occurrences (NavigableString s :: cs))
        with ([] ++ flat_map occurrences cs).
      eapply extends_trans; [|exact H].
      case_match; [|apply extends_refl].
      apply extends_plain; unfold text_block_markers, component_markers;
        by rewrite omap_cons_None by apply marker_text_add_paragraph.
Qed.

(** The walk of one element adds exactly the markers of the occurrences it
    meets, numbered on from the counters it starts with. *)
Lemma _process_element_extends element :
  ∀ ps self doc self' doc',
    _process_element self doc ps element = Some (self', doc') →
    extends self doc (occurrences element) self' doc'.
Proof.
  induction element as [t|name attrs classes contents IH] using Node_nested_ind;
    intros ps self doc self' doc' H.
  { simplify_eq/=. apply extends_refl. }
  rewrite _process_element_Tag in H. cbn [occurrences].
  destruct (bool_decide (name ∈ never_descend));
    [simplify_eq/=; apply extends_refl|].
  destruct (bool_decide ((list_to_set classes : gset string) ## exclusions));
    [|simplify_eq/=; apply extends_refl].
  destruct (bool_decide (attrs !! "id" = Some "nppe-feedback-article-form"));
    [simplify_eq/=; apply extends_refl|].
  cbn [negb orb] in *. cbv zeta in H.
  pose proof (tag_text_block_extends self doc (list_to_set classes)) as Hblock.
  cbv zeta in Hblock.
  destruct (tag_text_block self doc (list_to_set classes)) as [self1 doc1].
  eapply extends_trans; [exact Hblock|]. cbn [fst snd] in H.
  destruct (special_component name classes) as [component|].
  { by eapply _process_special_component_extends. }
  apply bind_Some in H as (handled & Htag & H).
  apply process_tag_spec in Htag. destruct handled as [doc2|].
  - destruct Htag as (Hname & blocks & -> & Htb & Hc). simplify_eq.
    cbn [bs4.name node] in Hname. rewrite (bool_decide_eq_true_2 _ Hname).
    by apply extends_plain.
  - cbn [bs4.name node] in Htag. rewrite (bool_decide_eq_false_2 _ Htag).
    by eapply process_children_extends.
Qed.

(** C5, as the code has it. The three exclusion tests run before the
    text-block test, so only an element they let through is marked: its tag
    is not one of the six pruned tags, its class set shares no token with the
    exclusion set and its [id] is not the feedback widget's. Such an element
    whose class set holds the seven text-block tokens first gets its marker,
    numbered with the raised text-block count. Then the component check runs
    on the same element. On a [div], [section] or [article] whose class list
    names a component (the name being non-empty), the renderer is run on the
    document that already ends with the marker and its result is the walker's
    result; the children are not walked: the count stays the raised one and no
    further text-block marker is appended, whatever the children are.
    Otherwise the walker goes on from the state the marker left, as it does
    for any element: a tag without a rule of its own has its children walked
    in order, a tag child by the walker itself and the rest from the state it
    leaves, a text child of more than 20 characters (trimmed) as a paragraph;
    an [h1] adds nothing more; a heading, a paragraph, a list and a table are
    rendered by their own rules. Either way the marker stays in the document
    the walker returns, right after the blocks it started with. *)
Theorem C5_text_block_then_component self doc ps name attrs classes contents :
  name ∉ never_descend →
  (list_to_set classes : gset string) ## exclusions →
  attrs !! "id" ≠ Some "nppe-feedback-article-form" →
  target_classes ⊆ (list_to_set classes : gset string) →
  let element := Tag name attrs classes contents in
  let here := {| node := element; parents := ps |} in
  let self' := set_text_block_count (text_block_count self + 1) self in
  let doc' := doc ++ [text_block_marker (text_block_count self + 1)] in
  (∀ component, name ∈ ["div"; "section"; "article"] →
     component_name classes = Some component → component ≠ "" →
     _process_element self doc ps element
     = _process_special_component self' doc' here component
     ∧ ∀ self'' doc'',
         _process_element self doc ps element = Some (self'', doc'') →
         text_block_count self'' = text_block_count self + 1
         ∧ ∃ blocks, doc'' = doc' ++ blocks ∧ text_block_markers blocks = [])
  ∧ (special_component name classes = None →
     _process_element self doc ps element
     = handled ← process_tag self' doc' here;
       match handled with
       | Some doc'' => Some (self', doc'')
       | None => process_children self' doc' (element :: ps) contents
       end)
  ∧ (special_component name classes = None → name ∉ handled_tags →
     _process_element self doc ps element
     = process_children self' doc' (element :: ps) contents)
  ∧ (∀ s d ps', process_children s d ps' [] = Some (s, d))
  ∧ (∀ s d ps' n a c k cs,
       process_children s d ps' (Tag n a c k :: cs)
       = st ← _process_element s d ps' (Tag n a c k);
         process_children st.1 st.2 ps' cs)
  ∧ (∀ s d ps' t cs,
       process_children s d ps' (NavigableString t :: cs)
       = process_children s
           (if Nat.ltb 20 (str.len (str.strip t))
            then d ++ [add_paragraph (str.strip t) None] else d) ps' cs)
  ∧ (name = "h1" → _process_element self doc ps element = Some (self', doc'))
  ∧ (name ∈ ["h2"; "h3"; "h4"; "h5"; "h6"] →
     _process_element self doc ps element
     = runs ← _process_children_with_links self' (bs4.children here);
       Some (self', doc' ++ [Heading (heading_level name) runs]))
  ∧ (name = "p" →
     _process_element self doc ps element
     = runs ← _process_children_with_links self' (bs4.children here);
       Some (self', doc' ++ [Paragraph None false runs]))
  ∧ (name ∈ ["ul"; "ol"] →
     _process_element self doc ps element
     = items ←
         mapM (λ li,
                 runs ← _process_children_with_links self' (bs4.children li);
                 Some (Paragraph
                         (Some (if decide (name = "ul") then "List Bullet"
                                else "List Number")) false runs))
              (bs4.find_all_children (bs4.has_name ["li"]) here);
       Some (self', doc' ++ items))
  ∧ (name = "table" →
     _process_element self doc ps element = Some (self', _process_table doc' here))
  ∧ (∀ self'' doc'',
       _process_element self doc ps element = Some (self'', doc'') →
       text_block_count self + 1 ≤ text_block_count self''
       ∧ ∃ blocks,
           doc'' = doc ++ text_block_marker (text_block_count self + 1) :: blocks).
Proof.
  intros Hname Hdisj Hid Htarget element here self' doc'.
  assert (Hwalk : _process_element self doc ps element =
    match special_component name classes with
    | Some component => _process_special_component self' doc' here component
    | None =>
        handled ← process_tag self' doc' here;
        match handled with
        | Some doc'' => Some (self', doc'')
        | None => process_children self' doc' (element :: ps) contents
        end
    end).
  { unfold element. rewrite _process_element_Tag.
    rewrite (bool_decide_eq_false_2 _ Hname), (bool_decide_eq_true_2 _ Hdisj).
    simpl negb. cbv iota. rewrite (bool_decide_eq_false_2 _ Hid).
    unfold tag_text_block. rewrite (decide_True _ _ Htarget). reflexivity. }
  assert (Hextends : ∀ self'' doc'',
            _process_element self doc ps element = Some (self'', doc'') →
            ∃ occs, extends self' doc' occs self'' doc'').
  { intros self'' doc'' Hresult. rewrite Hwalk in Hresult.
    destruct (special_component name classes) as [component|].
    - exists [Component component]. by eapply _process_special_component_extends.
    - apply bind_Some in Hresult as (handled & Htag & Hresult).
      apply process_tag_spec in Htag. destruct handled as [doc2|].
      + destruct Htag as (_ & blocks & -> & Htb & Hc). simplify_eq.
        exists []. by apply extends_plain.
      + eexists. eapply process_children_extends; [|exact Hresult].
        apply Forall_forall. intros child _. apply _process_element_extends. }
  assert (Hplain : name ∈ handled_tags → special_component name classes = None).
  { intros Hin. unfold special_component.
    rewrite bool_decide_eq_false_2; [reflexivity|].
    unfold handled_tags in Hin. rewrite !elem_of_cons, elem_of_nil in *.
    intros [->|[->|[->|[]]]];
      destruct Hin as [?|[?|[?|[?|[?|[?|[?|[?|[?|[?|[]]]]]]]]]]]; discriminate. }
  split_and!.
  - intros component Hcontainer Hcomponent Hnonempty.
    assert (Hspecial : special_component name classes = Some component).
    { unfold special_component.
      rewrite (bool_decide_eq_true_2 _ Hcontainer), Hcomponent.
      by destruct component. }
    split; [by rewrite Hwalk, Hspecial|].
    intros self'' doc'' Hresult. rewrite Hwalk, Hspecial in Hresult.
    apply _process_special_component_extends in Hresult
      as (blocks & -> & Htb & _ & Hcount & _).
    cbn in Hcount, Htb. split; [unfold self' in Hcount; cbn in Hcount; lia|].
    by exists blocks.
  - intros Hnone. by rewrite Hwalk, Hnone.
  - intros Hnone Hcontainer. rewrite Hwalk, Hnone.
    assert (process_tag self' doc' here = Some None) as ->; [|reflexivity].
    unfold process_tag, handled_tags in *. change (bs4.name here) with name.
    rewrite decide_False by (intros ->; apply Hcontainer; set_solver).
    rewrite bool_decide_eq_false_2 by (intros ?; apply Hcontainer; set_solver).
    rewrite decide_False by (intros ->; apply Hcontainer; set_solver).
    rewrite bool_decide_eq_false_2 by (intros ?; apply Hcontainer; set_solver).
    rewrite decide_False by (intros ->; apply Hcontainer; set_solver).
    reflexivity.
  - intros s d ps'. apply process_children_nil.
  - intros s d ps' n a c k cs. apply process_children_tag.
  - intros s d ps' t cs. apply process_children_string.
  - intros Hh1. rewrite Hwalk, Hplain by (rewrite Hh1; unfold handled_tags; set_solver).
    unfold process_tag. change (bs4.name here) with name. by rewrite decide_True.
  - intros Hh. rewrite Hwalk, Hplain by (unfold handled_tags; set_solver).
    unfold process_tag. change (bs4.name here) with name.
    rewrite decide_False by (intros ->; set_solver).
    rewrite (bool_decide_eq_true_2 _ Hh).
    by destruct (_process_children_with_links self' (bs4.children here)).
  - intros Hp. rewrite Hwalk, Hplain by (rewrite Hp; unfold handled_tags; set_solver).
    unfold process_tag. change (bs4.name here) with name. subst name.
    rewrite decide_False by discriminate.
    rewrite bool_decide_eq_false_2 by set_solver.
    rewrite decide_True by done.
    by destruct (_process_children_with_links self' (bs4.children here)).
  - intros Hl. rewrite Hwalk, Hplain by (unfold handled_tags; set_solver).
    unfold process_tag. change (bs4.name here) with name.
    rewrite decide_False by (intros ->; set_solver).
    rewrite bool_decide_eq_false_2 by (intros ?; set_solver).
    rewrite decide_False by (intros ->; set_solver).
    rewrite (bool_decide_eq_true_2 _ Hl).
    by destruct (mapM _ _).
  - intros Ht. rewrite Hwalk, Hplain by (rewrite Ht; unfold handled_tags; set_solver).
    unfold process_tag. change (bs4.name here) with name. subst name.
    rewrite decide_False by discriminate.
    rewrite bool_decide_eq_false_2 by set_solver.
    rewrite decide_False by discriminate.
    rewrite bool_decide_eq_false_2 by set_solver.
    by rewrite decide_True.
  - intros self'' doc'' Hresult.
    destruct (Hextends self'' doc'' Hresult)
      as (occs & blocks & -> & _ & _ & Hcount & _).
    split; [unfold self' in Hcount; cbn in Hcount; lia|].
    exists blocks. unfold doc'. by rewrite <- app_assoc.
Qed.

Lemma display_names_lookup n names i :
  display_names n names !! i
  = (λ name, if is_text_image name
             then "Text Image "
                  +:+ str.of_nat (S (n + length (List.filter is_text_image (take i names))))
             else name) <$> names !! i.
Proof.
  revert n i. induction names as [|name names IH]; intros n i; [by destruct i|].
  destruct i as [|i]; cbn [display_names].
  - destruct (is_text_image name) eqn:Hname; simpl; rewrite ?Hname, ?Nat.add_0_r;
      reflexivity.
  - destruct (is_text_image name) eqn:Hname; simpl; rewrite IH, ?Hname;
      simpl; rewrite ?Nat.add_succ_r; reflexivity.
Qed.

Lemma display_names_length n names : length (display_names n names) = length names.
Proof.
  revert n. induction names as [|name names IH]; intros n; [reflexivity|].
  simpl. destruct (is_text_image name); simpl; by rewrite IH.
Qed.

Lemma _add_seo_metadata_table_unmarked self doc soup :
  ∃ blocks, _add_seo_metadata_table self doc soup = doc ++ blocks
            ∧ text_block_markers blocks = []
            ∧ component_markers blocks = [].
Proof.
  unfold _add_seo_metadata_table. case_match.
  - rewrite <- app_assoc. eexists; split; [reflexivity|]. split; reflexivity.
  - eexists; split; [reflexivity|]. split; reflexivity.
Qed.

(** One extraction call, as an extension of the empty document by a worker
    whose counters are at zero. *)
Lemma _save_to_docx_extends self url soup self' doc :
  _save_to_docx self url soup = Some (self', doc) →
  extends (set_text_image_count 0 (set_text_block_count 0 self)) []
    (occurrences_of_page soup) self' doc.
Proof.
  unfold _save_to_docx, occurrences_of_page. intros H.
  apply bind_Some in H as ([self1 doc1] & Hwalk & H).
  injection H as -> <-.
  set (self0 := set_text_image_count 0 (set_text_block_count 0 self)) in *.
  destruct (_add_seo_metadata_table_unmarked self' (doc1 ++ [add_paragraph "" None]) soup)
    as (seo & -> & Hseo_tb & Hseo_c).
  rewrite <- app_assoc.
  match type of Hwalk with
  | context [_process_element _ ?d _ _] => set (doc0 := d) in *
  end.
  assert (Hhead : extends self0 [] [] self0 doc0).
  { change doc0 with ([] ++ doc0). apply extends_plain; subst doc0;
      destruct (bs4.find (bs4.has_name ["h1"]) soup); reflexivity. }
  assert (Htail : extends self' doc1 [] self' (doc1 ++ [add_paragraph "" None] ++ seo)).
  { apply extends_plain; unfold text_block_markers, component_markers in *;
      cbn [app]; rewrite omap_cons_None by apply marker_text_add_paragraph;
      assumption. }
  rewrite <- (app_nil_r (match main_content soup with
                         | Some m => occurrences (node m) | None => [] end)).
  eapply extends_trans; [|exact Htail].
  change (match main_content soup with
          | Some m => occurrences (node m) | None => [] end)
    with ([] ++ match main_content soup with
                | Some m => occurrences (node m) | None => [] end).
  eapply extends_trans; [exact Hhead|].
  destruct (main_content soup) as [m|].
  - by eapply _process_element_extends.
  - simplify_eq. apply extends_plain; reflexivity.
Qed.

(** C2. Within one extraction call the markers are numbered in traversal
    order. The text-block markers of the saved document are exactly
    "Text Block 1", ..., "Text Block k", [k] being the number of text blocks
    the walker meets. The component markers of the document are, one by one
    and in order, those of the marked components the walker meets, and the
    marker of a component of the Text Image kind is "Text Image N" where [N]
    is one more than the number of Text Image components met before it: no
    number is skipped or repeated. Both counters end at the number of
    occurrences of their kind. *)
Theorem C2_markers_numbered_in_traversal_order self url soup self' doc :
  _save_to_docx self url soup = Some (self', doc) →
  let occs := occurrences_of_page soup in
  let marked := marked_components occs in
  text_block_markers doc
  = map text_block_marker_text (seq 1 (length (List.filter is_text_block occs)))
  ∧ length (component_markers doc) = length marked
  ∧ (∀ i name, marked !! i = Some name →
       component_markers doc !! i
       = Some (component_marker_text
                 (if is_text_image name
                  then "Text Image "
                       +:+ str.of_nat
                             (S (length (List.filter is_text_image (take i marked))))
                  else name)))
  ∧ text_block_count self' = length (List.filter is_text_block occs)
  ∧ text_image_count self' = length (List.filter is_text_image marked).
Proof.
  intros Hsave occs marked.
  apply _save_to_docx_extends in Hsave
    as (blocks & -> & Htb & Hc & Hn & Hi & _).
  fold occs in Htb, Hn. fold occs marked in Hc, Hi.
  cbn [text_block_count text_image_count set_text_image_count
       set_text_block_count] in *.
  rewrite app_nil_l. split; [exact Htb|].
  split; [by rewrite Hc, length_map, display_names_length|].
  split; [|by split].
  intros i name Hname.
  rewrite Hc, list_lookup_fmap, display_names_lookup, Hname. reflexivity.
Qed.

Lemma _save_to_docx_reset self1 self2 url soup :
  set_text_image_count 0 (set_text_block_count 0 self1)
  = set_text_image_count 0 (set_text_block_count 0 self2) →
  _save_to_docx self1 url soup = _save_to_docx self2 url soup.
Proof. unfold _save_to_docx. intros ->. reflexivity. Qed.

(** C3. The document of an extraction call does not depend on the counters
    the worker enters the call with, since the call starts by setting both to
    zero: whatever values they hold, the result is that of the call on the
    same page and URL; and a second call on the same page and URL by the
    worker the first call left behind gives the same document again. *)
Theorem C3_extraction_call_is_repeatable self url soup :
  (∀ n m,
     _save_to_docx (set_text_image_count m (set_text_block_count n self)) url soup
     = _save_to_docx self url soup)
  ∧ (∀ self1 doc1,
       _save_to_docx self url soup = Some (self1, doc1) →
       _save_to_docx self1 url soup = Some (self1, doc1)).
Proof.
  split.
  - intros n m. apply _save_to_docx_reset. reflexivity.
  - intros self1 doc1 Hsave. rewrite <- Hsave. apply _save_to_docx_reset.
    apply _save_to_docx_extends in Hsave
      as (_ & _ & _ & _ & _ & _ & Hurl & Hfolder & Hbase).
    destruct self, self1. simpl in *. by subst.
Qed.

(** ** Table rendering *)

Lemma foldl_ext_all {A B} (f g : A → B → A) a l :
  (∀ a x, f a x = g a x) → foldl f a l = foldl g a l.
Proof. intros Hfg. revert a. induction l as [|x l IH]; intros a; simpl; [done|]. by rewrite Hfg, IH. Qed.

(** A loop that rewrites position [ix.1] of a list for every enumerated
    item, read back position by position. *)
Lemma lookup_foldl_alter_enumerate {A X} (p : nat → bool) (h : X → A → A)
    (xs : list X) (k : nat) (l : list A) (j : nat) :
  foldl (λ l ix, if p ix.1 then alter (h ix.2) ix.1 l else l) l (enumerate k xs) !! j
  = if bool_decide (k ≤ j) && p j
    then match xs !! (j - k) with
         | Some x => h x <$> l !! j
         | None => l !! j
         end
    else l !! j.
Proof.
  revert k l. induction xs as [|x xs IH]; intros k l.
  - simpl. by repeat case_match.
  - cbn [enumerate foldl fst snd]. rewrite IH.
    destruct (decide (j = k)) as [->|Hjk].
    + rewrite (bool_decide_eq_false_2 (S k ≤ k)) by lia.
      rewrite (bool_decide_eq_true_2 (k ≤ k)) by lia. rewrite Nat.sub_diag.
      simpl. destruct (p k); [apply list_lookup_alter_eq|reflexivity].
    + assert (Hl : (if p k then alter (h x) k l else l) !! j = l !! j).
      { destruct (p k); [by apply list_lookup_alter_ne|reflexivity]. }
      rewrite Hl. destruct (decide (k ≤ j)) as [Hle|Hgt].
      * rewrite (bool_decide_eq_true_2 (S k ≤ j)) by lia.
        rewrite (bool_decide_eq_true_2 (k ≤ j)) by lia.
        replace (j - k) with (S (j - S k)) by lia. reflexivity.
      * rewrite (bool_decide_eq_false_2 (S k ≤ j)) by lia.
        rewrite (bool_decide_eq_false_2 (k ≤ j)) by lia. reflexivity.
Qed.

(** Filling row [i] of a grid cell by cell is one rewrite of row [i]. *)
Lemma fill_cells_alter (g : PageElement → Cell → Cell) col_count i cells k
    (tbl : list (list Cell)) :
  foldl (λ tbl jc, if Nat.ltb jc.1 col_count
                   then alter_cell (g jc.2) i jc.1 tbl else tbl)
        tbl (enumerate k cells)
  = alter (λ row, foldl (λ row jc, if Nat.ltb jc.1 col_count
                                   then alter (g jc.2) jc.1 row else row)
                        row (enumerate k cells)) i tbl.
Proof.
  revert k tbl. induction cells as [|c cells IH]; intros k tbl.
  - simpl. symmetry. by apply list_alter_id.
  - cbn [enumerate foldl fst snd]. rewrite IH. unfold alter_cell.
    destruct (Nat.ltb k col_count); [|reflexivity].
    rewrite list_alter_alter_eq. reflexivity.
Qed.

(** The grid a table renderer leaves, for a renderer that fills the cells of
    row [i] with [g]. *)
Lemma filled_grid (g : PageElement → Cell → Cell) col_count rows :
  foldl (λ tbl ir,
           foldl (λ tbl jc, if Nat.ltb jc.1 col_count
                            then alter_cell (g jc.2) ir.1 jc.1 tbl else tbl)
                 tbl (enumerate 0 (table_cells ir.2)))
        (add_table (length rows) col_count) (enumerate 0 rows)
  = rendered_grid (λ cell, g cell []) col_count rows.
Proof.
  erewrite foldl_ext_all; [|intros; apply fill_cells_alter].
  apply list_eq. intros i.
  rewrite (lookup_foldl_alter_enumerate (λ _, true)
             (λ row line, foldl (λ line jc, if Nat.ltb jc.1 col_count
                                            then alter (g jc.2) jc.1 line else line)
                                line (enumerate 0 (table_cells row)))).
  rewrite (bool_decide_eq_true_2 (0 ≤ i)) by lia. rewrite Nat.sub_0_r.
  unfold rendered_grid, add_table. rewrite list_lookup_fmap.
  destruct (rows !! i) as [row|] eqn:Hrow; simpl.
  - rewrite lookup_replicate_2 by (by eapply lookup_lt_Some). simpl. f_equal.
    apply list_eq. intros j.
    rewrite (lookup_foldl_alter_enumerate (λ j, Nat.ltb j col_count) g).
    rewrite (bool_decide_eq_true_2 (0 ≤ j)) by lia. rewrite Nat.sub_0_r.
    rewrite list_lookup_fmap. simpl.
    destruct (decide (j < col_count)) as [Hj|Hj].
    + rewrite (proj2 (Nat.ltb_lt _ _) Hj), lookup_replicate_2, lookup_seq_lt by done.
      simpl. by destruct (table_cells row !! j).
    + rewrite (proj2 (Nat.ltb_ge _ _)) by lia.
      rewrite lookup_seq_ge by lia. by apply lookup_replicate_None; lia.
  - apply lookup_replicate_None. by apply lookup_ge_None.
Qed.

Lemma rendered_grid_lookup render col_count rows i j row :
  rows !! i = Some row → j < col_count →
  rendered_grid render col_count rows !! i ≫= (.!! j)
  = Some (match table_cells row !! j with
          | Some cell => render cell
          | None => []
          end).
Proof.
  intros Hrow Hj. unfold rendered_grid.
  rewrite list_lookup_fmap, Hrow. simpl.
  rewrite list_lookup_fmap, lookup_seq_lt by done. reflexivity.
Qed.

Lemma _process_table_grid doc table_element :
  _process_table doc table_element
  = match table_rows table_element with
    | [] => doc
    | _ =>
        doc ++ [Table "Light Grid Accent 1"
                  (rendered_grid (λ cell, [add_run (bs4.get_text_strip cell)])
                     (table_col_count table_element) (table_rows table_element))]
    end.
Proof.
  unfold _process_table, table_col_count, table_rows.
  destruct (bs4.find_all (bs4.has_name ["tr"]) table_element) as [|row rows] eqn:Hrows;
    [reflexivity|].
  do 3 f_equal. unfold fill_row.
  apply (filled_grid (λ cell, set_cell_text (bs4.get_text_strip cell))).
Qed.

(** C7. The table renderer emits nothing for a table without rows. Otherwise
    it appends one Table block with one grid row for every row element; every
    grid row has as many cells as the largest number of cell elements found in
    one row element, a number no row exceeds and some row reaches; and cell
    [j] of grid row [i] holds the flattened text of the [j]th cell element of
    row element [i] when the row has one, and is left empty otherwise. *)
Theorem C7_table_rows_and_columns doc table_element :
  let rows := table_rows table_element in
  let col_count := table_col_count table_element in
  let grid :=
    rendered_grid (λ cell, [add_run (bs4.get_text_strip cell)]) col_count rows in
  _process_table doc table_element
  = match rows with
    | [] => doc
    | _ => doc ++ [Table "Light Grid Accent 1" grid]
    end
  ∧ length grid = length rows
  ∧ Forall (λ line, length line = col_count) grid
  ∧ Forall (λ row, length (table_cells row) ≤ col_count) rows
  ∧ (rows ≠ [] → ∃ row, row ∈ rows ∧ length (table_cells row) = col_count)
  ∧ ∀ i j row,
      rows !! i = Some row → j < col_count →
      grid !! i ≫= (.!! j)
      = Some (match table_cells row !! j with
              | Some cell => [add_run (bs4.get_text_strip cell)]
              | None => []
              end).
Proof.
  intros rows col_count grid. split; [apply _process_table_grid|].
  split; [apply length_map|].
  split.
  { apply Forall_fmap, Forall_forall. intros row _. simpl.
    by rewrite length_map, length_seq. }
  split.
  { apply Forall_forall. intros row Hrow. unfold col_count, table_col_count.
    apply max_list_elem_of_le, list_elem_of_fmap. by exists row. }
  split.
  { intros Hne. unfold col_count, table_col_count. fold rows.
    assert (Hlens : map (λ row, length (table_cells row)) rows ≠ [])
      by (by destruct rows).
    apply max_list_elem_of, list_elem_of_fmap in Hlens as (row & Hlen & Hrow).
    exists row. split; [exact Hrow|]. symmetry. exact Hlen. }
  intros i j row Hrow Hj. by apply rendered_grid_lookup.
Qed.

(** The crawler's table renderer leaves the same grid, with the runs of the
    header cells set bold. *)
Lemma CrawlerThread_process_table_grid doc table_element :
  CrawlerThread._process_table doc table_element
  = match table_rows table_element with
    | [] => doc
    | _ =>
        doc ++ [Table "Light Grid Accent 1"
                  (rendered_grid
                     (λ cell, if decide (bs4.name cell = "th")
                              then [set_bold (add_run (bs4.get_text_strip cell))]
                              else [add_run (bs4.get_text_strip cell)])
                     (table_col_count table_element) (table_rows table_element))]
    end.
Proof.
  unfold CrawlerThread._process_table, table_col_count, table_rows.
  destruct (bs4.find_all (bs4.has_name ["tr"]) table_element) as [|row rows] eqn:Hrows;
    [reflexivity|].
  do 3 f_equal. unfold CrawlerThread.fill_row.
  rewrite <- (filled_grid
    (λ cell c, if decide (bs4.name cell = "th")
               then map set_bold (set_cell_text (bs4.get_text_strip cell) c)
               else set_cell_text (bs4.get_text_strip cell) c)).
  - apply foldl_ext_all. intros tbl [i r]. apply foldl_ext_all. intros tbl' [j cell].
    cbn [fst snd]. destruct (Nat.ltb j (max_list _)); [|reflexivity].
    cbv zeta. unfold alter_cell. destruct (decide (bs4.name cell = "th")); [|reflexivity].
    etrans; [apply list_alter_alter_eq|]. apply list_alter_ext; [|reflexivity].
    intros line _. apply list_alter_alter_eq.
Qed.

(** C8. The content extractor writes every cell of a table as one plain run
    holding the flattened, trimmed text of the cell element, header cells
    [<th>] like data cells: no cell it writes is bold. The crawler's renderer
    writes the same grid and sets the run of every header cell bold. On
    [table_with_header] the two header cells come out plain from the
    content extractor and bold from the crawler. *)
Theorem C8_header_cells_not_bold :
  (∀ doc table_element,
     _process_table doc table_element
     = match table_rows table_element with
       | [] => doc
       | _ =>
           doc ++ [Table "Light Grid Accent 1"
                     (rendered_grid (λ cell, [add_run (bs4.get_text_strip cell)])
                        (table_col_count table_element)
                        (table_rows table_element))]
       end)
  ∧ (∀ doc table_element,
       CrawlerThread._process_table doc table_element
       = match table_rows table_element with
         | [] => doc
         | _ =>
             doc ++ [Table "Light Grid Accent 1"
                       (rendered_grid
                          (λ cell, if decide (bs4.name cell = "th")
                                   then [set_bold (add_run (bs4.get_text_strip cell))]
                                   else [add_run (bs4.get_text_strip cell)])
                          (table_col_count table_element)
                          (table_rows table_element))]
         end)
  ∧ _process_table [] table_with_header
    = [Table "Light Grid Accent 1"
         [[[add_run "Name"]; [add_run "Age"]];
          [[add_run "Rex"]; [add_run "3"]]]]
  ∧ CrawlerThread._process_table [] table_with_header
    = [Table "Light Grid Accent 1"
         [[[set_bold (add_run "Name")]; [set_bold (add_run "Age")]];
          [[add_run "Rex"]; [add_run "3"]]]].
Proof.
  split_and!.
  - apply _process_table_grid.
  - apply CrawlerThread_process_table_grid.
  - vm_compute. reflexivity.
  - vm_compute. reflexivity.
Qed.

(** C9. The content extractor has no rule that skips an element by its text:
    a [div] without class and id is walked into whatever text it holds. On
    [feedback_widget], whose text is the feedback prompt, it appends the
    prompt as a paragraph. The simulation walker returns early on the same
    element, whatever the rest of its body does. *)
Theorem C9_feedback_widget_is_rendered self doc ps :
  (∀ contents,
     _process_element self doc ps (Tag "div" ∅ [] contents)
     = process_children self doc (Tag "div" ∅ [] contents :: ps) contents)
  ∧ _process_element self doc ps feedback_widget
    = Some (self, doc ++ [Paragraph None false
                            [add_run SimulationCrawler.feedback_prompt]])
  ∧ ∀ (State : Type) (rest : State → PageElement → State) (st : State),
      SimulationCrawler._process_element rest st
        {| node := feedback_widget; parents := ps |} = st.
Proof.
  split_and!.
  - intros contents. rewrite _process_element_Tag. reflexivity.
  - vm_compute. reflexivity.
  - intros State rest st. unfold SimulationCrawler._process_element.
    replace (SimulationCrawler.returns_early _) with true by (vm_compute; reflexivity).
    reflexivity.
Qed.

(** ** The article list *)

Lemma article_links_from_cons seen link rest :
  article_links_from seen (link :: rest)
  = if decide (¬ under_category_field link ∧ href link ≠ "" ∧ href link ∉ seen)
    then link :: article_links_from ({[href link]} ∪ seen) rest
    else article_links_from seen rest.
Proof.
  cbn [article_links_from]. fold (href link). unfold under_category_field.
  case_bool_decide as Hcat.
  - destruct (href link) as [|c s] eqn:Hhref; cbn [str.truthy andb].
    + rewrite decide_False; [reflexivity|]. intros (_ & Hne & _). congruence.
    + case_bool_decide as Hseen.
      * rewrite decide_True; [reflexivity|]. by split_and!.
      * rewrite decide_False; [reflexivity|]. by intros (_ & _ & Hnot).
  - rewrite decide_False; [reflexivity|]. intros (Hnot & _). by apply Hnot.
Qed.

Lemma article_links_from_app seen l1 l2 :
  article_links_from seen (l1 ++ l2)
  = article_links_from seen l1 ++ article_links_from (seen_after seen l1) l2.
Proof.
  revert seen. induction l1 as [|link l1 IH]; intros seen.
  - unfold seen_after. simpl. f_equal. set_solver.
  - rewrite <- app_comm_cons, !article_links_from_cons.
    unfold seen_after. rewrite article_links_from_cons.
    case_decide; rewrite IH; [|reflexivity].
    rewrite <- app_comm_cons. do 3 f_equal. unfold seen_after. simpl. set_solver.
Qed.

Lemma seen_after_kept seen links link :
  link ∈ links → ¬ under_category_field link → href link ≠ "" →
  href link ∈ seen_after seen links.
Proof.
  intros Hin Hcat Hhref. revert seen.
  induction links as [|l links IH]; intros seen; [by apply elem_of_nil in Hin|].
  unfold seen_after. rewrite article_links_from_cons.
  apply elem_of_cons in Hin as [->|Hin].
  - case_decide as Hkeep.
    + simpl. set_solver.
    + destruct (decide (href l ∈ seen)) as [Hseen|Hseen]; [set_solver|].
      exfalso. apply Hkeep. by split_and!.
  - specialize (IH Hin). case_decide.
    + specialize (IH ({[href l]} ∪ seen)). unfold seen_after in IH. simpl. set_solver.
    + apply IH.
Qed.

Lemma seen_after_origin seen links x :
  x ∈ seen_after seen links →
  x ∈ seen ∨ ∃ link, link ∈ links ∧ ¬ under_category_field link ∧ href link = x.
Proof.
  revert seen. induction links as [|l links IH]; intros seen.
  - unfold seen_after. simpl. set_solver.
  - unfold seen_after. rewrite article_links_from_cons. case_decide as Hkeep.
    + simpl. intros Hx.
      assert (x = href l ∨ x ∈ seen_after ({[href l]} ∪ seen) links) as [->|Hrest]
        by (unfold seen_after; set_solver).
      * right. exists l. split; [left|]. by destruct Hkeep.
      * apply IH in Hrest as [Hs|(link & Hin & Hlink)].
        -- apply elem_of_union in Hs as [->%elem_of_singleton|Hs]; [|by left].
           right. exists l. split; [left|]. by destruct Hkeep.
        -- right. exists link. split; [by right|done].
    + intros Hx. apply IH in Hx as [Hs|(link & Hin & Hlink)]; [by left|].
      right. exists link. split; [by right|done].
Qed.

Lemma article_links_from_skip seen link rest :
  href link = "" ∨ href link ∈ seen ∨ under_category_field link →
  article_links_from seen (link :: rest) = article_links_from seen rest.
Proof.
  intros H. rewrite article_links_from_cons.
  rewrite decide_False; [reflexivity|]. intros (? & ? & ?). naive_solver.
Qed.

Lemma article_links_from_href seen links link :
  link ∈ article_links_from seen links →
  link ∈ links ∧ ¬ under_category_field link ∧ href link ≠ "" ∧ href link ∉ seen.
Proof.
  revert seen. induction links as [|l links IH]; intros seen;
    [by intros ?%elem_of_nil|].
  rewrite article_links_from_cons. case_decide as Hkeep.
  - intros [->|Hin]%elem_of_cons.
    + split; [left|exact Hkeep].
    + apply IH in Hin as (? & ? & ? & ?). split; [by right|]. set_solver.
  - intros Hin. apply IH in Hin as (? & ?). split; [by right|done].
Qed.

Lemma fill_article_rows_Some self element links urls before after :
  mapM (λ link, _make_absolute self (href link)) links = Some urls →
  fill_article_rows self element (enumerate (length before) links)
    (before ++ replicate (length links) [[]; []] ++ after)
  = Some (before ++ zip_with (article_row element) links urls ++ after).
Proof.
  revert urls before. induction links as [|link links IH]; intros urls before Hurls.
  - apply mapM_Some in Hurls. by apply Forall2_nil_inv_l in Hurls as ->.
  - apply mapM_Some in Hurls.
    apply Forall2_cons_inv_l in Hurls as (url & urls' & Hurl & Hurls & ->).
    apply mapM_Some in Hurls.
    cbn [enumerate fill_article_rows length replicate]. fold (href link).
    rewrite Hurl. cbn [mbind option_bind].
    specialize (IH urls' (before ++ [article_row element link url]) Hurls).
    rewrite length_app, Nat.add_1_r in IH. rewrite <- !app_assoc in IH.
    cbn [zip_with app] in *. etrans; [|exact IH]. f_equal. unfold alter_cell.
    rewrite (alter_app_r_alt _ before) by lia.
    rewrite (alter_app_r_alt _ before) by lia.
    rewrite Nat.sub_diag. reflexivity.
Qed.

Lemma fill_article_rows_None self element links k table :
  mapM (λ link, _make_absolute self (href link)) links = None →
  fill_article_rows self element (enumerate k links) table = None.
Proof.
  revert k table. induction links as [|link links IH]; intros k table Hurls.
  - discriminate.
  - cbn [enumerate fill_article_rows]. fold (href link).
    cbn [mapM] in Hurls.
    destruct (_make_absolute self (href link)) as [url|]; [|reflexivity].
    cbn [mbind option_bind] in *. apply IH.
    destruct (mapM _ links); [discriminate|reflexivity].
Qed.

(** The article list renderer in closed form: nothing but the spacer when no
    anchor is kept; else the table of the head rows and one row for every
    kept anchor, in order, and the spacer. *)
Lemma articles_list_rows self doc element :
  articles_list self doc element
  = match article_links element with
    | [] => Some (doc ++ [add_paragraph "" None])
    | links =>
        urls ← mapM (λ link, _make_absolute self (href link)) links;
        Some (doc ++ [Table "Light Grid Accent 1"
                        (article_table_head element
                         ++ zip_with (article_row element) links urls);
                      add_paragraph "" None])
    end.
Proof.
  unfold articles_list. fold (article_links element) (component_title_text element).
  destruct (article_links element) as [|link links] eqn:Hlinks; [reflexivity|].
  rewrite <- Hlinks. clear Hlinks link links.
  set (links := article_links element).
  rewrite Nat.add_comm.
  match goal with
  | |- context [fill_article_rows _ _ _ ?t] =>
      change t with (article_table_head element ++ replicate (length links) [[]; []])
  end.
  destruct (mapM (λ link, _make_absolute self (href link)) links) as [urls|] eqn:Hurls.
  - pose proof (fill_article_rows_Some self element links urls
                  (article_table_head element) [] Hurls) as Hfill.
    rewrite !app_nil_r in Hfill.
    match goal with
    | |- context [fill_article_rows ?a ?b ?c ?d] =>
        replace (fill_article_rows a b c d)
          with (Some (article_table_head element
                      ++ zip_with (article_row element) links urls))
          by (symmetry; exact Hfill)
    end.
    cbn [mbind option_bind]. rewrite <- app_assoc. reflexivity.
  - rewrite fill_article_rows_None by exact Hurls. reflexivity.
Qed.

Lemma article_links_from_NoDup seen links :
  NoDup (map href (article_links_from seen links)).
Proof.
  revert seen. induction links as [|link links IH]; intros seen; [constructor|].
  rewrite article_links_from_cons. case_decide; [|apply IH].
  cbn [map]. constructor; [|apply IH].
  intros (other & Hhref & Hother)%list_elem_of_fmap.
  apply article_links_from_href in Hother as (_ & _ & _ & Hnot).
  apply Hnot. rewrite <- Hhref. set_solver.
Qed.

Lemma article_links_from_nil seen links :
  article_links_from seen links = []
  ↔ ∀ link, link ∈ links →
      under_category_field link ∨ href link = "" ∨ href link ∈ seen.
Proof.
  split.
  - intros Hnil link Hin.
    destruct (decide (under_category_field link)) as [|Hcat]; [by left|]. right.
    destruct (decide (href link = "")) as [|Hhref]; [by left|]. right.
    pose proof (seen_after_kept seen links link Hin Hcat Hhref) as Hseen.
    unfold seen_after in Hseen. rewrite Hnil in Hseen. set_solver.
  - revert seen. induction links as [|link links IH]; intros seen Hall; [reflexivity|].
    rewrite article_links_from_skip.
    + apply IH. intros other Hother. apply Hall. by right.
    + destruct (Hall link) as [?|[?|?]]; [by left|tauto..].
Qed.

(** C10. In the article list renderer an anchor whose [href] is missing or
    empty is dropped before the deduplication: removing it from the anchors
    changes neither the anchors kept nor the hrefs recorded as seen, and no
    kept anchor has an empty href. No anchor is kept exactly when every anchor
    sits under a category field or has no href; the renderer then appends no
    table, only the spacer paragraph. *)
Theorem C10_article_list_without_qualifying_anchor self doc element :
  (∀ seen pre link post,
     bs4.get link "href" = None ∨ bs4.get link "href" = Some "" →
     article_links_from seen (pre ++ link :: post)
     = article_links_from seen (pre ++ post))
  ∧ (∀ link, link ∈ article_links element → href link ≠ "")
  ∧ (article_links element = []
     ↔ ∀ link, link ∈ bs4.find_all (bs4.has_name ["a"]) element →
         under_category_field link ∨ href link = "")
  ∧ (article_links element = [] →
     _process_special_component self doc element "Articles List"
     = Some (self, doc ++ [add_paragraph "" None])).
Proof.
  split_and!.
  - intros seen pre link post Hhref.
    assert (href link = "") as Hempty.
    { unfold href, bs4.get_default. by destruct Hhref as [->| ->]. }
    rewrite !article_links_from_app. f_equal.
    apply article_links_from_skip. by left.
  - intros link Hin. by apply article_links_from_href in Hin as (_ & _ & ? & _).
  - unfold article_links. rewrite article_links_from_nil.
    split; intros Hall link Hin; destruct (Hall link Hin) as [?|?]; set_solver.
  - intros Hnil. unfold _process_special_component.
    rewrite decide_False by discriminate. rewrite decide_True by reflexivity.
    rewrite articles_list_rows, Hnil. reflexivity.
Qed.

(** C1, as the code has it. The deduplication key of the article list is the
    [href] attribute as written, not the URL it resolves to. Of two anchors
    with the same non-empty [href], neither under a category field, only the
    first gives a row, whatever their texts: the later anchor can be removed
    from the anchors without changing the anchors kept, and the first anchor
    with a given [href] is kept. The kept anchors have pairwise different
    [href]s, and the table has, below its two head rows, one row for every
    kept anchor, in order, holding the anchor's title and its resolved URL. *)
Theorem C1_same_href_gives_one_row self doc element :
  (∀ seen pre a mid b post,
     ¬ under_category_field a → href b = href a →
     article_links_from seen (pre ++ a :: mid ++ b :: post)
     = article_links_from seen (pre ++ a :: mid ++ post))
  ∧ (∀ pre a post,
       bs4.find_all (bs4.has_name ["a"]) element = pre ++ a :: post →
       ¬ under_category_field a → href a ≠ "" →
       (∀ p, p ∈ pre → ¬ under_category_field p → href p ≠ href a) →
       a ∈ article_links element)
  ∧ NoDup (map href (article_links element))
  ∧ articles_list self doc element
    = match article_links element with
      | [] => Some (doc ++ [add_paragraph "" None])
      | links =>
          urls ← mapM (λ link, _make_absolute self (href link)) links;
          Some (doc ++ [Table "Light Grid Accent 1"
                          (article_table_head element
                           ++ zip_with (article_row element) links urls);
                        add_paragraph "" None])
      end.
Proof.
  split_and!.
  - intros seen pre a mid b post Hcat Hhref.
    replace (pre ++ a :: mid ++ b :: post) with ((pre ++ a :: mid) ++ b :: post)
      by (by rewrite <- app_assoc).
    replace (pre ++ a :: mid ++ post) with ((pre ++ a :: mid) ++ post)
      by (by rewrite <- app_assoc).
    rewrite !(article_links_from_app seen (pre ++ a :: mid)). f_equal.
    apply article_links_from_skip.
    destruct (decide (href a = "")) as [Hempty|Hne]; [left; congruence|].
    right; left. rewrite Hhref. apply seen_after_kept; [|done..].
    apply elem_of_app. right. left.
  - intros pre a post Hlinks Hcat Hhref Hfirst.
    unfold article_links. rewrite Hlinks, article_links_from_app.
    apply elem_of_app. right. rewrite article_links_from_cons.
    rewrite decide_True; [left|]. split_and!; [done..|].
    intros [Hin|(p & Hp & Hpcat & Hphref)]%seen_after_origin; [set_solver|].
    by apply (Hfirst p).
  - apply article_links_from_NoDup.
  - apply articles_list_rows.
Qed.

(** ** The URL resolver *)

Lemma str_append_assoc (a b c : string) : (a +:+ b) +:+ c = a +:+ (b +:+ c).
Proof.
  induction a as [|x a IH]; [reflexivity|].
  change (String x ((a +:+ b) +:+ c) = String x (a +:+ (b +:+ c))). by rewrite IH.
Qed.

Lemma str_all_has p c s : str.all p s = true → p c = false → str.has c s = false.
Proof.
  intros Hall Hc. induction s as [|a s IH]; [reflexivity|].
  cbn [str.all str.has] in *. apply andb_true_iff in Hall as [Ha Hs].
  case_decide as Hac; [congruence|]. by apply IH.
Qed.

Lemma str_all_impl (p q : ascii → bool) s :
  (∀ c, p c = true → q c = true) → str.all p s = true → str.all q s = true.
Proof.
  intros Hpq. induction s as [|a s IH]; [reflexivity|].
  cbn [str.all]. rewrite !andb_true_iff. intros [Ha Hs]. split; auto.
Qed.

Lemma str_replace_absent c s :
  str.has c s = false → str.replace (String c "") "" s = s.
Proof.
  unfold str.replace. induction s as [|a s IH]; [reflexivity|].
  cbn [str.has]. case_decide as Hac; [discriminate|]. intros Hs.
  cbn [str.replace_from str.startswith].
  rewrite decide_False by done. by rewrite IH.
Qed.

Lemma remove_unsafe_bytes_plain s :
  str.all (λ c, negb (is_unsafe_byte c)) s = true → remove_unsafe_bytes s = s.
Proof.
  intros Hall. unfold remove_unsafe_bytes, _UNSAFE_URL_BYTES_TO_REMOVE.
  cbn [foldl].
  rewrite (str_replace_absent "009" s) by (by apply (str_all_has _ _ _ Hall)).
  rewrite (str_replace_absent "013" s) by (by apply (str_all_has _ _ _ Hall)).
  rewrite (str_replace_absent "010" s) by (by apply (str_all_has _ _ _ Hall)).
  reflexivity.
Qed.

Lemma span_until_all p s :
  str.all (λ c, negb (p c)) s = true → span_until p s = (s, "").
Proof.
  induction s as [|a s IH]; [reflexivity|].
  cbn [str.all span_until]. intros [Ha Hs]%andb_true_iff.
  apply negb_true_iff in Ha. rewrite Ha, IH by done. reflexivity.
Qed.

Lemma str_partition_None c s : str.has c s = false → str.partition c s = None.
Proof.
  induction s as [|a s IH]; [reflexivity|].
  cbn [str.has str.partition]. case_decide; [discriminate|].
  intros Hs. by rewrite IH.
Qed.

Lemma str_split_nonempty c s : str.split c s ≠ [].
Proof.
  destruct s as [|a s]; [discriminate|]. cbn [str.split].
  case_decide; [discriminate|]. by destruct (str.split c s).
Qed.

Lemma str_join_split c s : str.join (String c "") (str.split c s) = s.
Proof.
  induction s as [|a s IH]; [reflexivity|].
  cbn [str.split]. case_decide as Hac.
  - subst a. pose proof (str_split_nonempty c s) as Hne.
    destruct (str.split c s) as [|x xs]; [done|].
    cbn [str.join] in *. by rewrite IH.
  - pose proof (str_split_nonempty c s) as Hne.
    destruct (str.split c s) as [|x xs]; [done|].
    destruct xs as [|y ys]; cbn [str.join] in *; by rewrite <- IH.
Qed.

Lemma resolve_segments_plain acc segments :
  forallb (λ seg, negb (is_dot_segment seg)) segments = true →
  foldl resolve_segment acc segments = acc ++ segments.
Proof.
  revert acc. induction segments as [|seg segments IH]; intros acc.
  - by rewrite app_nil_r.
  - cbn [forallb foldl]. intros [Hseg Hrest]%andb_true_iff.
    rewrite IH by done.
    assert (resolve_segment acc seg = acc ++ [seg]) as ->; [|by rewrite <- app_assoc].
    unfold resolve_segment. apply negb_true_iff, bool_decide_eq_false in Hseg.
    rewrite !decide_False; [reflexivity|..]; intros ->; apply Hseg; set_solver.
Qed.

Lemma last_not_dot_segment segments :
  forallb (λ seg, negb (is_dot_segment seg)) segments = true →
  is_dot_segment (List.last segments "") = false.
Proof.
  induction segments as [|seg segments IH]; [reflexivity|].
  cbn [forallb]. intros [Hseg Hrest]%andb_true_iff.
  destruct segments as [|seg' segments]; [by apply negb_true_iff|by apply IH].
Qed.

Lemma str_all_app p a b : str.all p (a +:+ b) = str.all p a && str.all p b.
Proof.
  induction a as [|x a IH]; [reflexivity|].
  change (p x && str.all p (a +:+ b) = p x && str.all p a && str.all p b).
  by rewrite IH, andb_assoc.
Qed.

Lemma split_netloc_plain_host host :
  is_plain_host host = true →
  split_netloc _check_bracketed_netloc ("//" +:+ host) = Some (host, "").
Proof.
  intros [_ Hhost]%andb_true_iff.
  assert (Hdelim : str.all (λ c, negb (is_netloc_delimiter c)) host = true).
  { revert Hhost. apply str_all_impl. intros c [Hc _]%andb_true_iff.
    revert Hc. unfold is_netloc_delimiter. cbn [str.has].
    repeat case_decide; done. }
  unfold split_netloc.
  replace (str.startswith ("//" +:+ host) "//") with true by reflexivity.
  replace (_splitnetloc ("//" +:+ host) 2) with (span_until is_netloc_delimiter host)
    by reflexivity.
  rewrite span_until_all by done.
  rewrite (str_all_has _ "[" _ Hhost), (str_all_has _ "]" _ Hhost) by done.
  reflexivity.
Qed.

Lemma urlparse_origin scheme host :
  scheme ∈ ["http"; "https"] → is_plain_host host = true →
  urlparse _check_bracketed_netloc (scheme +:+ "://" +:+ host) ""
  = Some {| scheme := scheme; netloc := host; path := ""; params := "";
            query := ""; fragment := "" |}.
Proof.
  intros Hscheme Hplain.
  pose proof Hplain as [_ Hhost]%andb_true_iff.
  assert (Hsafe : str.all (λ c, negb (is_unsafe_byte c)) host = true).
  { revert Hhost. apply str_all_impl. intros c [_ ?]%andb_true_iff. done. }
  unfold urlparse, urlsplit. cbv zeta.
  apply elem_of_cons in Hscheme as [->|Hscheme];
    [|apply list_elem_of_singleton in Hscheme as ->].
  - replace (str.lstrip_by _ ("http" +:+ "://" +:+ host))
      with ("http://" +:+ host) by reflexivity.
    rewrite (remove_unsafe_bytes_plain ("http://" +:+ host))
      by (by rewrite str_all_app, Hsafe).
    replace (split_scheme ("http://" +:+ host) _)
      with ("http", "//" +:+ host) by reflexivity.
    rewrite split_netloc_plain_host by done. reflexivity.
  - replace (str.lstrip_by _ ("https" +:+ "://" +:+ host))
      with ("https://" +:+ host) by reflexivity.
    rewrite (remove_unsafe_bytes_plain ("https://" +:+ host))
      by (by rewrite str_all_app, Hsafe).
    replace (split_scheme ("https://" +:+ host) _)
      with ("https", "//" +:+ host) by reflexivity.
    rewrite split_netloc_plain_host by done. reflexivity.
Qed.

Lemma split_scheme_slash rest scheme :
  split_scheme (String "/" rest) scheme = (scheme, String "/" rest).
Proof.
  unfold split_scheme. cbn [str.partition].
  rewrite decide_False by discriminate.
  by destruct (str.partition ":" rest) as [[l r]|].
Qed.




(** ** The name of the saved file *)

Lemma str_len_app a b : str.len (a +:+ b) = str.len a + str.len b.
Proof.
  induction a as [|x a IH]; [reflexivity|].
  change (S (str.len (a +:+ b)) = S (str.len a + str.len b)). by rewrite IH.
Qed.

Lemma str_len_take n s : str.len (str.take n s) = n `min` str.len s.
Proof.
  revert s. induction n as [|n IH]; intros [|a s]; try reflexivity.
  cbn [str.take]. change (S (str.len (str.take n s)) = S n `min` S (str.len s)).
  rewrite IH. lia.
Qed.

Lemma str_all_take p n s : str.all p s = true → str.all p (str.take n s) = true.
Proof.
  revert s. induction n as [|n IH]; intros [|a s]; try reflexivity.
  cbn [str.take str.all]. rewrite !andb_true_iff. intros [Ha Hs]. auto.
Qed.

Lemma str_take_all n s : str.len s ≤ n → str.take n s = s.
Proof.
  revert s. induction n as [|n IH]; intros [|a s]; try reflexivity.
  - cbn. lia.
  - change (S (str.len s) ≤ S n → String a (str.take n s) = String a s).
    intros Hlen. rewrite IH by lia. reflexivity.
Qed.

Lemma sub_reserved_len s : str.len (sub_reserved s) = str.len s.
Proof.
  induction s as [|a s IH]; [reflexivity|].
  cbn [sub_reserved]. change (S (str.len (sub_reserved s)) = S (str.len s)).
  by rewrite IH.
Qed.

Lemma sub_reserved_all s :
  str.all (λ c, negb (is_reserved c)) (sub_reserved s) = true.
Proof.
  induction s as [|a s IH]; [reflexivity|].
  cbn [sub_reserved str.all]. rewrite IH, andb_true_r.
  destruct (is_reserved a) eqn:Ha; [reflexivity|]. by rewrite Ha.
Qed.

Lemma sub_reserved_id s :
  str.all (λ c, negb (is_reserved c)) s = true → sub_reserved s = s.
Proof.
  induction s as [|a s IH]; [reflexivity|].
  cbn [sub_reserved str.all]. intros [Ha Hs]%andb_true_iff.
  apply negb_true_iff in Ha. rewrite Ha, IH by done. reflexivity.
Qed.

Lemma sub_reserved_take n s :
  str.take n (sub_reserved s) = sub_reserved (str.take n s).
Proof.
  revert s. induction n as [|n IH]; intros [|a s]; try reflexivity.
  cbn [sub_reserved str.take]. by rewrite IH.
Qed.

(** X1. The file name made from a page URL holds none of the reserved
    characters (so no path separator: the document lands in the output
    folder itself), is the first 100 characters of the URL with those
    characters turned into underscores, followed by [.docx], and so has
    [min(len(url), 100) + 5] characters. A URL of at most 100 characters that
    holds none of them is kept as it is. Two URLs whose first 100
    characters differ only in reserved characters get the same file name. *)
Theorem safe_filename_has_no_reserved_character url :
  str.all (λ c, negb (is_reserved c)) (safe_filename url) = true
  ∧ str.len (safe_filename url) = (str.len url `min` 100) + 5
  ∧ (str.all (λ c, negb (is_reserved c)) url = true → str.len url ≤ 100 →
     safe_filename url = url +:+ ".docx")
  ∧ (∀ other,
       sub_reserved (str.take 100 other) = sub_reserved (str.take 100 url) →
       safe_filename other = safe_filename url).
Proof.
  unfold safe_filename. split_and!.
  - rewrite str_all_app. apply andb_true_iff. split; [|reflexivity].
    apply str_all_take, sub_reserved_all.
  - rewrite str_len_app, str_len_take, sub_reserved_len.
    change (str.len ".docx") with 5. lia.
  - intros Hall Hlen. rewrite sub_reserved_id by done.
    by rewrite str_take_all by done.
  - intros other Hsame. by rewrite !sub_reserved_take, Hsame.
Qed.

(** ** The name of a component *)

Lemma str_has_app c a b : str.has c (a +:+ b) = str.has c a || str.has c b.
Proof.
  induction a as [|x a IH]; [reflexivity|].
  change (str.has c (String x (a +:+ b)) = str.has c (String x a) || str.has c b).
  cbn [str.has]. case_decide; [reflexivity|exact IH].
Qed.

Lemma str_replace_char_absent c d s :
  c ≠ d → str.has c (str.replace (String c "") (String d "") s) = false.
Proof.
  intros Hcd. unfold str.replace. induction s as [|a s IH]; [reflexivity|].
  cbn [str.replace_from str.startswith]. case_decide as Hac.
  - change (str.has c (String d (str.replace_from 0 (String c "") (String d "") s))
            = false).
    cbn [str.has]. rewrite decide_False by done. exact IH.
  - cbn [str.has]. rewrite decide_False by done. exact IH.
Qed.

Lemma to_upper_not_hyphen a : str.is_ascii_lower a = true → str.to_upper a ≠ "-"%char.
Proof. destruct a as [[] [] [] [] [] [] [] []]; vm_compute; congruence. Qed.

Lemma to_lower_not_hyphen a : str.is_ascii_upper a = true → str.to_lower a ≠ "-"%char.
Proof. destruct a as [[] [] [] [] [] [] [] []]; vm_compute; congruence. Qed.

Lemma str_title_from_hyphen b s :
  str.has "-" s = false → str.has "-" (str.title_from b s) = false.
Proof.
  revert b. induction s as [|a s IH]; intros b; [reflexivity|].
  cbn [str.has str.title_from]. case_decide as Ha; [discriminate|]. intros Hs.
  destruct (str.is_ascii_lower a) eqn:Hlower;
    [|destruct (str.is_ascii_upper a) eqn:Hupper].
  - cbn [str.has]. destruct b.
    + rewrite decide_False by done. by apply IH.
    + rewrite decide_False by (by apply to_upper_not_hyphen). by apply IH.
  - cbn [str.has]. destruct b.
    + rewrite decide_False by (by apply to_lower_not_hyphen). by apply IH.
    + rewrite decide_False by done. by apply IH.
  - cbn [str.has]. rewrite decide_False by done. by apply IH.
Qed.

(** X2. The loop that names a component returns no name exactly when no
    class token starts with [component--] or is [article--hero] or
    [hero--image]; otherwise the first such token decides, whatever tokens
    come before and after it, and the name it gives never holds a hyphen. *)
Theorem component_name_of_first_component_token classes :
  (component_name classes = None
   ↔ Forall (λ cls, names_component cls = false) classes)
  ∧ (∀ before cls after,
       classes = before ++ cls :: after →
       Forall (λ c, names_component c = false) before →
       names_component cls = true →
       component_name classes = component_name [cls]
       ∧ is_Some (component_name classes))
  ∧ (∀ name, component_name classes = Some name → str.has "-" name = false).
Proof.
  assert (Hstep : ∀ cls rest,
            names_component cls = false →
            component_name (cls :: rest) = component_name rest).
  { intros cls rest [Hprefix Hfixed%bool_decide_eq_false]%orb_false_iff.
    cbn [component_name]. rewrite Hprefix.
    rewrite !decide_False; [reflexivity|..]; intros ->; apply Hfixed; set_solver. }
  assert (Hstop : ∀ cls rest,
            names_component cls = true →
            component_name (cls :: rest) = component_name [cls]
            ∧ is_Some (component_name (cls :: rest))).
  { intros cls rest Hcls. cbn [component_name]. unfold names_component in Hcls.
    destruct (str.startswith cls "component--"); [split; [done|by eexists]|].
    destruct (decide (cls = "article--hero")); [split; [done|by eexists]|].
    destruct (decide (cls = "hero--image")); [split; [done|by eexists]|].
    cbn [orb] in Hcls. apply bool_decide_eq_true in Hcls. set_solver. }
  split_and!.
  - induction classes as [|cls rest IH]; [by split; [constructor|]|].
    destruct (names_component cls) eqn:Hcls.
    + destruct (Hstop cls rest Hcls) as [_ [name Hname]]. rewrite Hname. split.
      * discriminate.
      * intros Hall. apply Forall_cons in Hall as [Hno _]. congruence.
    + rewrite Hstep by done. rewrite IH. split.
      * by constructor.
      * by intros [_ ?]%Forall_cons.
  - intros before cls after -> Hbefore Hcls.
    induction Hbefore as [|c before Hc _ IH]; [by apply Hstop|].
    rewrite <- app_comm_cons, Hstep by done. exact IH.
  - intros name. induction classes as [|cls rest IH]; [discriminate|].
    cbn [component_name]. repeat case_match; try exact IH.
    + intros [= <-]. apply str_title_from_hyphen.
      by apply (str_replace_char_absent "-" " ").
    + by intros [= <-].
    + by intros [= <-].
Qed.

(** ** Deduplication of texts *)

Lemma fromkeys_from_spec seen l :
  NoDup (fromkeys_from seen l)
  ∧ (∀ x, x ∈ fromkeys_from seen l ↔ x ∈ l ∧ x ∉ seen)
  ∧ fromkeys_from seen l `sublist_of` l.
Proof.
  revert seen. induction l as [|y l IH]; intros seen.
  - split_and!; [constructor|set_solver|done].
  - cbn [fromkeys_from]. case_bool_decide as Hy.
    + destruct (IH seen) as (Hnd & Hin & Hsub). split_and!; [done| |by constructor].
      intros x. rewrite Hin. set_solver.
    + destruct (IH ({[y]} ∪ seen)) as (Hnd & Hin & Hsub). split_and!.
      * constructor; [|done]. rewrite Hin. set_solver.
      * intros x. rewrite !elem_of_cons, Hin, not_elem_of_union, elem_of_singleton.
        destruct (decide (x = y)) as [->|]; intuition congruence.
      * by constructor.
Qed.

Lemma fromkeys_from_NoDup seen l :
  NoDup l → (∀ x, x ∈ l → x ∉ seen) → fromkeys_from seen l = l.
Proof.
  intros Hnd. revert seen. induction Hnd as [|y l Hy Hnd IH]; intros seen Hseen.
  - reflexivity.
  - cbn [fromkeys_from]. rewrite bool_decide_eq_false_2 by set_solver.
    f_equal. apply IH. set_solver.
Qed.

(** X3. The deduplication of the text parts of a generic component keeps
    the first occurrence of every part: the result has no part twice, holds
    exactly the parts of the list, in the order of the list, and a list
    without repetition is left as it is; deduplicating twice changes nothing
    more. *)
Theorem fromkeys_keeps_first_occurrences l :
  NoDup (fromkeys l)
  ∧ (∀ x, x ∈ fromkeys l ↔ x ∈ l)
  ∧ fromkeys l `sublist_of` l
  ∧ (NoDup l → fromkeys l = l)
  ∧ fromkeys (fromkeys l) = fromkeys l.
Proof.
  unfold fromkeys. destruct (fromkeys_from_spec ∅ l) as (Hnd & Hin & Hsub).
  split_and!; [done| |done| |].
  - intros x. rewrite Hin. set_solver.
  - intros Hl. apply fromkeys_from_NoDup; set_solver.
  - apply fromkeys_from_NoDup; set_solver.
Qed.

(** ** The content of a text-image component *)

Lemma paragraph_text_add_run t : paragraph_text [add_run t] = t.
Proof. reflexivity. Qed.

Lemma block_text_add_paragraph t style :
  str.truthy t = true → block_text (add_paragraph t style) = t.
Proof. intros Ht. unfold add_paragraph. by rewrite Ht. Qed.

Lemma block_text_add_heading t level :
  str.truthy t = true → block_text (add_heading t level) = t.
Proof. intros Ht. unfold add_heading. by rewrite Ht. Qed.

Lemma text_image_content_texts seen tags :
  NoDup (map block_text (text_image_content seen tags))
  ∧ ∀ b, b ∈ text_image_content seen tags →
      (block_text b ∉ seen) ∧ 2 < str.len (block_text b).
Proof.
  revert seen. induction tags as [|tag tags IH]; intros seen.
  { split; [constructor|]. by intros b ?%elem_of_nil. }
  cbn [text_image_content].
  destruct (bs4.find_parent "hero--article-category" tag); [apply IH|].
  set (t := bs4.get_text_strip tag).
  destruct (str.truthy t) eqn:Htruthy; [|apply IH].
  destruct (Nat.ltb 2 (str.len t)) eqn:Hlen; [|apply IH].
  case_bool_decide as Hseen; [|apply IH]. cbn [andb].
  destruct (IH ({[t]} ∪ seen)) as [Hnd Hall].
  assert (Htext : block_text
            (if bs4.has_name ["h2"; "h3"; "h4"; "h5"; "h6"] tag
             then add_heading t (heading_level (bs4.name tag))
             else add_paragraph t None) = t).
  { destruct (bs4.has_name _ tag);
      [by apply block_text_add_heading|by apply block_text_add_paragraph]. }
  split.
  - cbn [map]. rewrite Htext. constructor; [|done].
    intros (b & Hb & Hin)%list_elem_of_fmap.
    apply Hall in Hin as [Hnot _]. rewrite <- Hb in Hnot. set_solver.
  - intros b [->|Hin]%elem_of_cons.
    + rewrite Htext. split; [done|]. by apply Nat.ltb_lt.
    + apply Hall in Hin as [Hnot ?]. split; [set_solver|done].
Qed.

Lemma text_image_fallback_texts seen containers :
  NoDup (map block_text (text_image_fallback seen containers))
  ∧ ∀ b, b ∈ text_image_fallback seen containers →
      (block_text b ∉ seen) ∧ 10 < str.len (block_text b).
Proof.
  revert seen. induction containers as [|c cs IH]; intros seen.
  { split; [constructor|]. by intros b ?%elem_of_nil. }
  cbn [text_image_fallback].
  set (t := bs4.get_text_strip c).
  destruct (str.truthy t) eqn:Htruthy; [|apply IH].
  destruct (Nat.ltb 10 (str.len t)) eqn:Hlen; [|apply IH].
  case_bool_decide as Hseen; [|apply IH]. cbn [andb].
  destruct (IH ({[t]} ∪ seen)) as [Hnd Hall].
  split.
  - cbn [map]. rewrite block_text_add_paragraph by done. constructor; [|done].
    intros (b & Hb & Hin)%list_elem_of_fmap.
    apply Hall in Hin as [Hnot _]. rewrite <- Hb in Hnot. set_solver.
  - intros b [->|Hin]%elem_of_cons.
    + rewrite block_text_add_paragraph by done. split; [done|]. by apply Nat.ltb_lt.
    + apply Hall in Hin as [Hnot ?]. split; [set_solver|done].
Qed.

(** X4. Below its table a text-image component never shows a text twice:
    the paragraphs and headings of its content have pairwise different
    texts, each longer than two characters, whichever of the two extraction
    tiers produced them. *)
Theorem text_image_body_has_no_repeated_text element :
  NoDup (map block_text (text_image_body element))
  ∧ Forall (λ b, 2 < str.len (block_text b)) (text_image_body element).
Proof.
  unfold text_image_body. case_match.
  - destruct (text_image_fallback_texts ∅
                (bs4.find_all (bs4.class_matches text_container_pattern) element))
      as [Hnd Hall].
    split; [done|]. apply Forall_forall. intros b Hb. apply Hall in Hb as [_ ?]. lia.
  - destruct (text_image_content_texts ∅ (p :: l)) as [Hnd Hall].
    split; [done|]. apply Forall_forall. intros b Hb. by apply Hall in Hb as [_ ?].
Qed.

(** ** Inline content *)

Lemma str_app_nil_r s : s +:+ "" = s.
Proof.
  induction s as [|a s IH]; [reflexivity|].
  change (String a (s +:+ "") = String a s). by rewrite IH.
Qed.









(** ** The SEO table and the page URL *)







(** ** What the walk appends *)

(** An induction principle for the walker: a relation between the state
    before and after that is reflexive and transitive and holds of every
    single step holds of the walk of an element. *)
Lemma _process_element_invariant
    (R : ContentExtractorWorker → Document → ContentExtractorWorker → Document → Prop) :
  (∀ self doc, R self doc self doc) →
  (∀ s1 d1 s2 d2 s3 d3, R s1 d1 s2 d2 → R s2 d2 s3 d3 → R s1 d1 s3 d3) →
  (∀ self doc class_set,
     R self doc (tag_text_block self doc class_set).1
       (tag_text_block self doc class_set).2) →
  (∀ self doc element name self' doc',
     _process_special_component self doc element name = Some (self', doc') →
     R self doc self' doc') →
  (∀ self doc here doc',
     process_tag self doc here = Some (Some doc') → R self doc self doc') →
  (∀ self doc t, R self doc self (doc ++ [add_paragraph t None])) →
  ∀ element ps self doc self' doc',
    _process_element self doc ps element = Some (self', doc') →
    R self doc self' doc'.
Proof.
  intros Hrefl Htrans Hblock Hcomponent Htag Hstring.
  induction element as [t|name attrs classes contents IH] using Node_nested_ind;
    intros ps self doc self' doc' H.
  { simplify_eq/=. apply Hrefl. }
  rewrite _process_element_Tag in H.
  destruct (bool_decide (name ∈ never_descend)); [simplify_eq/=; apply Hrefl|].
  destruct (bool_decide ((list_to_set classes : gset string) ## exclusions));
    [|simplify_eq/=; apply Hrefl].
  destruct (bool_decide (attrs !! "id" = Some "nppe-feedback-article-form"));
    [simplify_eq/=; apply Hrefl|].
  cbn [negb] in H. cbv zeta in H.
  pose proof (Hblock self doc (list_to_set classes)) as Hfirst.
  destruct (tag_text_block self doc (list_to_set classes)) as [self1 doc1].
  cbn [fst snd] in *. eapply Htrans; [exact Hfirst|]. clear Hfirst.
  destruct (special_component name classes) as [component|]; [by eapply Hcomponent|].
  apply bind_Some in H as (handled & Hhandled & H).
  destruct handled as [doc2|]; [simplify_eq; by eapply Htag|].
  clear Hhandled. revert self1 doc1 H.
  generalize (Tag name attrs classes contents :: ps). intros ps'.
  induction IH as [|child cs Hchild _ IHcs]; intros self1 doc1 H.
  - rewrite process_children_nil in H. simplify_eq. apply Hrefl.
  - destruct child as [n a c k|s].
    + rewrite process_children_tag in H.
      apply bind_Some in H as ([self2 doc2] & Hhead & Hrest).
      eapply Htrans; [by eapply Hchild|by apply IHcs].
    + rewrite process_children_string in H. apply IHcs in H.
      case_match; [|done]. eapply Htrans; [apply Hstring|exact H].
Qed.

Lemma heading_level_range name :
  name ∈ ["h2"; "h3"; "h4"; "h5"; "h6"] →
  2 ≤ heading_level name ≤ 6.
Proof.
  rewrite !elem_of_cons, elem_of_nil.
  intros [->|[->|[->|[->|[->|[]]]]]]; vm_compute; lia.
Qed.

Lemma walker_block_Heading name runs :
  name ∈ ["h2"; "h3"; "h4"; "h5"; "h6"] →
  walker_block (Heading (heading_level name) runs) = true.
Proof.
  rewrite !elem_of_cons, elem_of_nil.
  intros [->|[->|[->|[->|[->|[]]]]]]; reflexivity.
Qed.

Lemma text_image_content_walker_blocks seen tags :
  Forall (λ b, walker_block b = true) (text_image_content seen tags).
Proof.
  revert seen. induction tags as [|tag tags IH]; intros seen; [constructor|].
  cbn [text_image_content]. repeat case_match; try apply IH.
  all: constructor; [|apply IH].
  - match goal with
    | H : bs4.has_name _ _ = true |- _ =>
        apply andb_true_iff in H as [_ Hname%bool_decide_eq_true]
    end.
    unfold add_heading. by apply walker_block_Heading.
  - unfold add_paragraph. by case_match.
Qed.

Lemma text_image_fallback_walker_blocks seen containers :
  Forall (λ b, walker_block b = true) (text_image_fallback seen containers).
Proof.
  revert seen. induction containers as [|c cs IH]; intros seen; [constructor|].
  cbn [text_image_fallback]. case_match; [|apply IH].
  constructor; [|apply IH]. unfold add_paragraph. by case_match.
Qed.

Lemma text_image_body_walker_blocks element :
  Forall (λ b, walker_block b = true) (text_image_body element).
Proof.
  unfold text_image_body. case_match.
  - apply text_image_fallback_walker_blocks.
  - apply text_image_content_walker_blocks.
Qed.

Lemma _process_special_component_walker_blocks self doc element name self' doc' :
  _process_special_component self doc element name = Some (self', doc') →
  ∃ blocks, doc' = doc ++ blocks ∧ Forall (λ b, walker_block b = true) blocks.
Proof.
  unfold _process_special_component. intros H. repeat case_decide.
  - apply bind_Some in H as (doc1 & H & ?). simplify_eq.
    unfold hero_article in H.
    repeat (simplify_option_eq || case_match);
      rewrite <- ?app_assoc; eexists; (split; [reflexivity|]);
      repeat constructor.
  - apply bind_Some in H as (doc1 & H & ?). simplify_eq.
    rewrite articles_list_rows in H.
    repeat (simplify_option_eq || case_match);
      rewrite <- ?app_assoc; eexists; (split; [reflexivity|]);
      repeat constructor.
  - unfold text_image in H.
    pose proof (text_image_body_walker_blocks element) as Hbody.
    destruct (bs4.find (bs4.has_name ["img"]) element) as [img_tag|];
      simplify_option_eq.
    all: rewrite <- ?app_assoc; eexists; (split; [reflexivity|]).
    all: repeat (apply Forall_cons; split; [reflexivity|]).
    all: apply Forall_app; split; [exact Hbody|by repeat constructor].
  - apply bind_Some in H as (doc1 & H & ?). simplify_eq.
    unfold other_component in H.
    destruct (bs4.find (bs4.has_name ["img"]) element) as [img_tag|];
      simplify_option_eq.
    all: rewrite <- ?app_assoc; eexists; (split; [reflexivity|]);
      repeat constructor.
Qed.

Lemma process_tag_walker_blocks self doc here doc' :
  process_tag self doc here = Some (Some doc') →
  ∃ blocks, doc' = doc ++ blocks ∧ Forall (λ b, walker_block b = true) blocks.
Proof.
  unfold process_tag. intros H.
  destruct (decide (bs4.name here = "h1")) as [Hh1|Hh1].
  { simplify_eq. exists []. by rewrite app_nil_r. }
  case_bool_decide as Hh.
  { apply bind_Some in H as (runs & Hruns & H). simplify_eq.
    eexists; split; [reflexivity|]. constructor; [|constructor].
    by apply walker_block_Heading. }
  destruct (decide (bs4.name here = "p")) as [Hp|Hp].
  { apply bind_Some in H as (runs & Hruns & H). simplify_eq.
    eexists; split; [reflexivity|]. by repeat constructor. }
  case_bool_decide as Hl.
  { apply bind_Some in H as (items & Hitems & H). simplify_eq.
    eexists; split; [reflexivity|].
    apply mapM_Some in Hitems.
    induction Hitems as [|li item lis items Hitem _ IH]; [constructor|].
    apply bind_Some in Hitem as (runs & _ & Hitem). simplify_eq.
    constructor; [|exact IH]. by case_decide. }
  destruct (decide (bs4.name here = "table")) as [Ht|Ht]; [|done].
  simplify_eq. unfold _process_table. case_match.
  - exists []. by rewrite app_nil_r.
  - eexists; split; [reflexivity|]. by repeat constructor.
Qed.

(** The walk of an element only appends, and what it appends are walker
    blocks. *)
Lemma _process_element_walker_blocks element ps self doc self' doc' :
  _process_element self doc ps element = Some (self', doc') →
  ∃ blocks, doc' = doc ++ blocks ∧ Forall (λ b, walker_block b = true) blocks.
Proof.
  revert element ps self doc self' doc'.
  apply (_process_element_invariant
           (λ _ doc _ doc',
              ∃ blocks, doc' = doc ++ blocks
                        ∧ Forall (λ b, walker_block b = true) blocks)).
  - intros _ doc. exists []. by rewrite app_nil_r.
  - intros _ d1 _ d2 _ d3 (b1 & -> & H1) (b2 & -> & H2).
    exists (b1 ++ b2). rewrite app_assoc. split; [done|]. by apply Forall_app.
  - intros self doc class_set. unfold tag_text_block. case_decide.
    + eexists; split; [reflexivity|]. by repeat constructor.
    + exists []. by rewrite app_nil_r.
  - intros self doc element name self' doc'.
    apply _process_special_component_walker_blocks.
  - intros self doc here doc'. apply process_tag_walker_blocks.
  - intros _ doc t. eexists; split; [reflexivity|].
    constructor; [|constructor]. unfold add_paragraph. by case_match.
Qed.

Lemma _add_seo_metadata_table_appends self soup :
  ∃ seo, (∀ doc, _add_seo_metadata_table self doc soup = doc ++ seo)
         ∧ Forall (λ b, walker_block b = true) seo.
Proof.
  unfold _add_seo_metadata_table.
  destruct (urlparse _check_bracketed_netloc (url self) "") as [parsed|].
  - eexists. split; [intros doc; rewrite <- app_assoc; reflexivity|].
    by repeat constructor.
  - eexists. split; [intros doc; reflexivity|]. by repeat constructor.
Qed.

(** X8. What a saved document asks of the Word library. Every paragraph has
    the default style or one of the two list styles, every table one of the
    two table styles, and every heading a level from 1 to 6, so that no style
    lookup and no heading level can fail. A heading of level 1 occurs at most
    once: it is the third block of the document and holds the text of the
    first [h1] of the page; the walk of the main content never appends one. *)
Theorem saved_document_uses_known_styles self url soup self' doc :
  _save_to_docx self url soup = Some (self', doc) →
  Forall (λ b, uses_known_style b = true) doc
  ∧ ∀ i b, doc !! i = Some b → is_title_heading b = true →
      i = 2 ∧ ∃ h1, bs4.find (bs4.has_name ["h1"]) soup = Some h1
                    ∧ b = add_heading (bs4.get_text_strip h1) 1.
Proof.
  unfold _save_to_docx. intros H.
  apply bind_Some in H as ([self1 doc1] & Hwalk & H). simplify_eq.
  set (head := [Paragraph None true
                  [set_font (Some 14) (Some (0, 112, 192)) false
                     (set_bold (add_run ("Source: " +:+ url)))];
                add_paragraph "" None]) in *.
  assert (Hrest : ∃ rest,
            _add_seo_metadata_table self' (doc1 ++ [add_paragraph "" None]) soup
            = match bs4.find (bs4.has_name ["h1"]) soup with
              | Some h1 =>
                  head ++ [add_heading (bs4.get_text_strip h1) 1; add_paragraph "" None]
              | None => head
              end ++ rest
            ∧ Forall (λ b, walker_block b = true) rest).
  { assert (∃ seo, ∀ d, _add_seo_metadata_table self' d soup = d ++ seo
                        ∧ Forall (λ b, walker_block b = true) seo)
      as (seo & Hseo).
    { destruct (_add_seo_metadata_table_appends self' soup) as (seo & Happ & Hok).
      exists seo. intros d. by split. }
    destruct (main_content soup) as [main|].
    - apply _process_element_walker_blocks in Hwalk as (blocks & -> & Hblocks).
      destruct (Hseo ((match bs4.find (bs4.has_name ["h1"]) soup with
                       | Some h1 =>
                           head ++ [add_heading (bs4.get_text_strip h1) 1;
                                    add_paragraph "" None]
                       | None => head
                       end ++ blocks) ++ [add_paragraph "" None])) as [-> Hs].
      exists (blocks ++ [add_paragraph "" None] ++ seo).
      rewrite <- !app_assoc. split; [done|].
      apply Forall_app. split; [done|]. by constructor.
    - simplify_eq.
      destruct (Hseo ((match bs4.find (bs4.has_name ["h1"]) soup with
                       | Some h1 =>
                           head ++ [add_heading (bs4.get_text_strip h1) 1;
                                    add_paragraph "" None]
                       | None => head
                       end ++ [add_paragraph "No main content found." None])
                      ++ [add_paragraph "" None])) as [-> Hs].
      eexists. rewrite <- !app_assoc. split; [reflexivity|].
      repeat (constructor; [reflexivity|]). exact Hs. }
  destruct Hrest as (rest & -> & Hrest).
  assert (Hknown : Forall (λ b, uses_known_style b = true) rest).
  { eapply Forall_impl; [exact Hrest|]. by intros b [? _]%andb_true_iff. }
  assert (Hnotitle : ∀ b, b ∈ rest → is_title_heading b = true → False).
  { intros b Hb Htitle. rewrite Forall_forall in Hrest.
    apply Hrest, andb_true_iff in Hb as [_ Hb]. by rewrite Htitle in Hb. }
  destruct (bs4.find (bs4.has_name ["h1"]) soup) as [h1|].
  - split.
    + apply Forall_app. split; [|done]. by repeat constructor.
    + intros i b Hi Htitle.
      destruct i as [|[|[|[|i]]]]; cbn in Hi; simplify_eq; try done.
      * eauto.
      * exfalso. eapply Hnotitle; [|exact Htitle]. by eapply list_elem_of_lookup_2.
  - split.
    + apply Forall_app. split; [|done]. by repeat constructor.
    + intros i b Hi Htitle.
      destruct i as [|[|i]]; cbn in Hi; simplify_eq; try done.
      exfalso. eapply Hnotitle; [|exact Htitle]. by eapply list_elem_of_lookup_2.
Qed.

(** ** Extraction without exceptions *)

Lemma str_all_lstrip_by q p s :
  str.all q s = true → str.all q (str.lstrip_by p s) = true.
Proof.
  induction s as [|a s IH]; [done|]. cbn [str.lstrip_by].
  case_match; [|done]. cbn [str.all]. intros [_ Hs]%andb_true_iff. by apply IH.
Qed.

Lemma str_all_rstrip_by q p s :
  str.all q s = true → str.all q (str.rstrip_by p s) = true.
Proof.
  induction s as [|a s IH]; [done|]. cbn [str.rstrip_by str.all].
  intros [Ha Hs]%andb_true_iff. specialize (IH Hs).
  destruct (str.rstrip_by p s) as [|b r].
  - case_match; [done|]. cbn [str.all]. by rewrite Ha.
  - cbn [str.all] in *. by rewrite Ha, IH.
Qed.
























(** ** The walk and the document it is given *)

(** Case analysis on the matches and on the calls that may raise. *)
Ltac frame_cases :=
  repeat first
    [ progress cbn [mbind option_bind fmap option_fmap option_map fst snd]
    | case_match
    | match goal with
      | |- context [_make_absolute ?s ?u] => destruct (_make_absolute s u)
      end
    | match goal with
      | |- context [mapM ?f ?l] => destruct (mapM f l)
      end
    | match goal with
      | |- context [_process_children_with_links ?s ?l] =>
          destruct (_process_children_with_links s l)
      end ].

Lemma _process_special_component_frame self doc element name :
  _process_special_component self doc element name
  = st ← _process_special_component self [] element name;
    Some (st.1, doc ++ st.2).
Proof.
  unfold _process_special_component. repeat case_decide.
  - unfold hero_article. frame_cases; rewrite <- ?app_assoc; reflexivity.
  - rewrite !articles_list_rows. frame_cases; rewrite <- ?app_assoc; reflexivity.
  - unfold text_image. frame_cases; rewrite <- ?app_assoc; reflexivity.
  - unfold other_component. frame_cases; rewrite <- ?app_assoc; reflexivity.
Qed.

Lemma process_tag_frame self doc here :
  process_tag self doc here
  = handled ← process_tag self [] here;
    Some (match handled with Some d => Some (doc ++ d) | None => None end).
Proof.
  unfold process_tag, _process_table.
  frame_cases; rewrite ?app_nil_r; reflexivity.
Qed.

Lemma tag_text_block_frame self doc class_set :
  tag_text_block self doc class_set
  = ((tag_text_block self [] class_set).1,
     doc ++ (tag_text_block self [] class_set).2).
Proof. unfold tag_text_block. case_decide; cbn [fst snd]; by rewrite ?app_nil_r. Qed.

Lemma process_children_frame ps contents :
  Forall (λ child, ∀ ps self doc,
            _process_element self doc ps child
            = st ← _process_element self [] ps child; Some (st.1, doc ++ st.2))
         contents →
  ∀ self doc,
    process_children self doc ps contents
    = st ← process_children self [] ps contents; Some (st.1, doc ++ st.2).
Proof.
  induction 1 as [|child cs Hchild _ IH]; intros self doc.
  { rewrite !process_children_nil. cbn. by rewrite app_nil_r. }
  destruct child as [n a c k|s].
  - rewrite !process_children_tag. rewrite (Hchild ps self doc).
    destruct (_process_element self [] ps (Tag n a c k)) as [[self1 blocks]|];
      [|reflexivity].
    cbn [mbind option_bind fst snd].
    rewrite (IH self1 (doc ++ blocks)), (IH self1 blocks).
    destruct (process_children self1 [] ps cs) as [[self2 more]|]; [|reflexivity].
    cbn [mbind option_bind fst snd]. by rewrite app_assoc.
  - rewrite !process_children_string. case_match.
    + rewrite (IH self (doc ++ [add_paragraph (str.strip s) None])),
        (IH self ([] ++ [add_paragraph (str.strip s) None])).
      destruct (process_children self [] ps cs) as [[self2 more]|]; [|reflexivity].
      cbn [mbind option_bind fst snd]. by rewrite app_assoc.
    + apply IH.
Qed.

(** X10. The walk never reads or changes what the document already holds:
    walking an element with a document in hand gives the same worker, and
    the same blocks appended to that document, as walking it with an empty
    document. A walk that raises does so whatever the document holds. *)
Theorem walk_appends_the_same_blocks_to_any_document element ps self doc :
  _process_element self doc ps element
  = st ← _process_element self [] ps element; Some (st.1, doc ++ st.2).
Proof.
  revert ps self doc.
  induction element as [t|name attrs classes contents IH] using Node_nested_ind;
    intros ps self doc.
  { cbn. by rewrite app_nil_r. }
  rewrite !_process_element_Tag.
  repeat (case_match; [cbn; by rewrite app_nil_r|]).
  cbv zeta. rewrite (tag_text_block_frame self doc).
  destruct (tag_text_block self [] (list_to_set classes)) as [self1 blocks].
  cbn [fst snd].
  destruct (special_component name classes) as [component|].
  { rewrite (_process_special_component_frame self1 (doc ++ blocks)),
      (_process_special_component_frame self1 blocks).
    destruct (_process_special_component self1 [] _ component) as [[self2 more]|];
      [|reflexivity].
    cbn [mbind option_bind fst snd]. by rewrite app_assoc. }
  rewrite (process_tag_frame self1 (doc ++ blocks)),
    (process_tag_frame self1 blocks).
  destruct (process_tag self1 [] _) as [[more|]|]; [| |reflexivity].
  { cbn. by rewrite app_assoc. }
  cbn [mbind option_bind fmap option_fmap option_map].
  rewrite (process_children_frame _ _ IH self1 (doc ++ blocks)),
    (process_children_frame _ _ IH self1 blocks).
  destruct (process_children self1 [] _ contents) as [[self2 more]|]; [|reflexivity].
  cbn [mbind option_bind fst snd]. by rewrite app_assoc.
Qed.

(** ** The results workbook of the crawler *)




(** ** Rooted references and the URL resolver *)

Lemma str_partition_Some c s l r :
  str.partition c s = Some (l, r) → s = l +:+ String c r ∧ str.has c l = false.
Proof.
  revert l. induction s as [|a s IH]; intros l; [done|].
  cbn [str.partition]. case_decide as Hac.
  - intros [= <- <-]. by subst a.
  - destruct (str.partition c s) as [[l' r']|]; [|done].
    cbn [mbind option_bind]. intros [= <- <-].
    destruct (IH l' eq_refl) as [-> Hl]. split; [done|].
    cbn [str.has]. by rewrite decide_False.
Qed.

Lemma str_partition_is_Some c s :
  str.has c s = true → is_Some (str.partition c s).
Proof.
  induction s as [|a s IH]; [done|]. cbn [str.has str.partition].
  case_decide; [by eexists|]. intros [[l r] ->]%IH. by eexists.
Qed.

Lemma str_rpartition_Some c s l r :
  str.rpartition c s = Some (l, r) → s = l +:+ String c r.
Proof.
  revert l. induction s as [|a s IH]; intros l; [done|].
  cbn [str.rpartition].
  destruct (str.rpartition c s) as [[l' r']|].
  - intros [= <- <-]. by rewrite (IH l' eq_refl).
  - case_decide as Hac; [|done]. intros [= <- <-]. by subst a.
Qed.

Lemma str_rpartition_is_Some c s :
  str.has c s = true → is_Some (str.rpartition c s).
Proof.
  induction s as [|a s IH]; [done|]. cbn [str.has str.rpartition].
  destruct (str.rpartition c s) as [[l r]|]; [by eexists|].
  case_decide; [by eexists|]. intros [? ?]%IH. done.
Qed.

Lemma str_app_cons x s t : String x s +:+ t = String x (s +:+ t).
Proof. reflexivity. Qed.

(** [split_at]: either the character is absent and the text is kept whole, or
    the text is the two parts around its first occurrence. *)
Lemma split_at_spec c s :
  (str.has c s = false ∧ split_at c s = (s, ""))
  ∨ (str.has c s = true
     ∧ ∃ l r, split_at c s = (l, r) ∧ s = l +:+ String c r ∧ str.has c l = false).
Proof.
  unfold split_at. destruct (str.has c s) eqn:Hc.
  - right. split; [done|].
    destruct (str_partition_is_Some c s Hc) as [[l r] Hpart]. rewrite Hpart.
    exists l, r. split; [done|]. by apply str_partition_Some.
  - left. by rewrite str_partition_None.
Qed.

(** [_splitparams] on a text that starts with a slash. *)
Lemma _splitparams_spec url :
  str.startswith url "/" = true →
  (_splitparams url = (url, ""))
  ∨ ∃ path params,
      _splitparams url = (path, params) ∧ url = path +:+ String ";" params
      ∧ str.startswith path "/" = true ∧ path ≠ url.
Proof.
  intros Hslash. unfold _splitparams.
  assert (str.has "/" url = true) as Hhas.
  { destruct url as [|a url]; [done|]. cbn [str.startswith] in Hslash.
    cbn [str.has]. case_decide; done. }
  destruct (str_rpartition_is_Some "/" url Hhas) as [[before after] Hr].
  rewrite Hr. apply str_rpartition_Some in Hr.
  destruct (str.partition ";" after) as [[l r]|] eqn:Hp; [|by left].
  right. apply str_partition_Some in Hp as [-> _].
  exists (before +:+ "/" +:+ l), r. split; [done|]. split_and!.
  - rewrite Hr. change (String "/" (l +:+ String ";" r)) with ("/" +:+ l +:+ String ";" r).
    by rewrite !str_append_assoc.
  - rewrite Hr in Hslash. destruct before as [|x before]; [reflexivity|].
    rewrite str_app_cons in Hslash. rewrite str_app_cons.
    cbn [str.startswith] in *. by case_decide.
  - intros Heq. rewrite Hr in Heq.
    apply (f_equal str.len) in Heq.
    change (String "/" (l +:+ String ";" r)) with ("/" +:+ l +:+ String ";" r) in Heq.
    rewrite !str_len_app in Heq. cbn in Heq. lia.
Qed.

Lemma str_startswith_prefix l r c d :
  c ≠ d → str.startswith (l +:+ String d r) (String c "") = true →
  str.startswith l (String c "") = true.
Proof.
  intros Hcd. destruct l as [|x l].
  - change ("" +:+ String d r) with (String d r). cbn [str.startswith].
    by rewrite decide_False by done.
  - rewrite str_app_cons. cbn [str.startswith]. by case_decide.
Qed.

Lemma web_scheme_clean sch :
  sch ∈ ["http"; "https"] →
  remove_unsafe_bytes
    (str.rstrip_by _WHATWG_C0_CONTROL_OR_SPACE
       (str.lstrip_by _WHATWG_C0_CONTROL_OR_SPACE sch)) = sch
  ∧ bool_decide (sch ∈ uses_params) = true
  ∧ bool_decide (sch ∈ uses_relative) = true
  ∧ bool_decide (sch ∈ uses_netloc) = true
  ∧ str.truthy sch = true.
Proof.
  intros Hscheme. apply elem_of_cons in Hscheme as [->|Hscheme];
    [|apply list_elem_of_singleton in Hscheme as ->]; by vm_compute.
Qed.

Lemma split_at_join c s l r :
  split_at c s = (l, r) →
  (str.has c s = true → str.truthy r = true) →
  s = l +:+ (if str.truthy r then String c r else "").
Proof.
  intros Hsplit Hpresent.
  destruct (split_at_spec c s) as [[Hno Hs]|(Hyes & l' & r' & Hs & Href & _)];
    rewrite Hs in Hsplit; simplify_eq.
  - cbn [str.truthy]. by rewrite str_app_nil_r.
  - by rewrite (Hpresent Hyes).
Qed.

Lemma split_at_startswith c d s l r :
  split_at c s = (l, r) → d ≠ c →
  str.startswith s (String d "") = true → str.startswith l (String d "") = true.
Proof.
  intros Hsplit Hdc Hs.
  destruct (split_at_spec c s) as [[Hno Hs']|(Hyes & l' & r' & Hs' & Href & _)];
    rewrite Hs' in Hsplit; simplify_eq; [done|].
  by apply str_startswith_prefix in Hs.
Qed.

Lemma splitparams_join url path params :
  (if str.has ";" url then _splitparams url else (url, "")) = (path, params) →
  str.startswith url "/" = true →
  (path ≠ url → str.truthy params = true) →
  url = (if str.truthy params then path +:+ String ";" params else path)
  ∧ str.startswith path "/" = true.
Proof.
  intros Hsplit Hslash Hpresent.
  destruct (str.has ";" url); [|by simplify_eq].
  destruct (_splitparams_spec url Hslash) as [Hp|(p & q & Hp & Href & Hpath & Hne)];
    rewrite Hp in Hsplit; simplify_eq; [done|].
  by rewrite (Hpresent Hne).
Qed.

(** The parts [urlparse] finds in a rooted reference, and the reference put
    together again from them. *)
Lemma urlparse_rooted_reference reference sch :
  sch ∈ ["http"; "https"] → is_rooted_reference reference = true →
  ∃ path params query fragment,
    urlparse _check_bracketed_netloc reference sch
    = Some {| scheme := sch; netloc := ""; path := path; params := params;
              query := query; fragment := fragment |}
    ∧ str.startswith path "/" = true
    ∧ forallb (λ seg, negb (is_dot_segment seg)) (str.split "/" path) = true
    ∧ reference
      = ((if str.truthy params then path +:+ ";" +:+ params else path)
         +:+ (if str.truthy query then "?" +:+ query else ""))
        +:+ (if str.truthy fragment then "#" +:+ fragment else "").
Proof.
  intros Hscheme Hrooted.
  destruct (web_scheme_clean sch Hscheme) as (Hclean & Hparams & _).
  unfold is_rooted_reference in Hrooted.
  apply andb_true_iff in Hrooted as [Hrooted Hparts].
  apply andb_true_iff in Hrooted as [Hrooted Hsafe].
  apply andb_true_iff in Hrooted as [Hslash Hdouble].
  apply negb_true_iff in Hdouble.
  unfold urlparse, urlsplit. cbv zeta. rewrite Hclean.
  assert (str.lstrip_by _WHATWG_C0_CONTROL_OR_SPACE reference = reference) as ->.
  { destruct reference as [|a tail]; [done|]. cbn [str.startswith] in Hslash.
    case_decide as Ha; [subst a|done]. reflexivity. }
  rewrite (remove_unsafe_bytes_plain reference) by done.
  assert (split_scheme reference sch = (sch, reference)) as ->.
  { destruct reference as [|a tail]; [done|]. cbn [str.startswith] in Hslash.
    case_decide as Ha; [subst a|done]. apply split_scheme_slash. }
  unfold split_netloc. rewrite Hdouble. cbn [mbind option_bind].
  destruct (split_at "#" reference) as [rest fragment] eqn:Hfragment.
  destruct (split_at "?" rest) as [rest' query] eqn:Hquery.
  cbn [mbind option_bind]. rewrite Hparams. cbn [andb].
  destruct (if str.has ";" rest' then _splitparams rest' else (rest', ""))
    as [path params] eqn:Hsplit.
  apply andb_true_iff in Hparts as [Hparts Hsegments].
  apply andb_true_iff in Hparts as [Hparts Hp].
  apply andb_true_iff in Hparts as [Hf Hq].
  assert (Hrest : str.startswith rest "/" = true)
    by (by eapply (split_at_startswith "#" "/")).
  assert (Hrest' : str.startswith rest' "/" = true)
    by (by eapply (split_at_startswith "?" "/")).
  destruct (splitparams_join rest' path params Hsplit Hrest') as [Hjoin Hpath].
  { intros Hne. rewrite (bool_decide_eq_false_2 _ Hne) in Hp. exact Hp. }
  exists path, params, query, fragment. split_and!; [done..|].
  rewrite (split_at_join "#" reference rest fragment Hfragment)
    by (intros Hyes; by rewrite Hyes in Hf).
  rewrite (split_at_join "?" rest rest' query Hquery)
    by (intros Hyes; by rewrite Hyes in Hq).
  rewrite Hjoin at 1. reflexivity.
Qed.

(** Joining a rooted reference to a web origin is concatenation. *)
Lemma urljoin_rooted_reference sch host reference :
  sch ∈ ["http"; "https"] → is_plain_host host = true →
  is_rooted_reference reference = true →
  urljoin _check_bracketed_netloc (sch +:+ "://" +:+ host) reference
  = Some ((sch +:+ "://" +:+ host) +:+ reference).
Proof.
  intros Hscheme Hhost Hrooted. unfold urljoin.
  destruct (web_scheme_clean sch Hscheme) as (_ & _ & Hrel & Hnet & Hs).
  assert (Hbase : str.truthy (sch +:+ "://" +:+ host) = true).
  { apply elem_of_cons in Hscheme as [->|Hscheme];
      [|apply list_elem_of_singleton in Hscheme as ->]; reflexivity. }
  rewrite Hbase. cbn [negb].
  assert (Htruthy : str.truthy reference = true).
  { unfold is_rooted_reference in Hrooted. by destruct reference. }
  rewrite Htruthy. cbn [negb].
  rewrite urlparse_origin by done.
  cbn [mbind option_bind scheme].
  destruct (urlparse_rooted_reference reference sch Hscheme Hrooted)
    as (path' & params' & query' & fragment' & -> & Hpath & Hsegments & Href).
  cbn [mbind option_bind scheme netloc path params query fragment].
  rewrite (bool_decide_eq_true_2 (sch = sch)) by done.
  rewrite Hrel, Hnet. cbn [negb orb andb str.truthy].
  assert (Hptruthy : str.truthy path' = true) by (by destruct path').
  rewrite Hptruthy. cbn [negb andb]. rewrite Hpath.
  rewrite resolve_segments_plain by done. rewrite app_nil_l.
  pose proof (last_not_dot_segment _ Hsegments) as Hlast.
  unfold is_dot_segment in Hlast. rewrite Hlast.
  rewrite str_join_split, Hptruthy.
  unfold urlunparse. cbn [params path scheme netloc query fragment].
  unfold urlunsplit.
  pose proof Hhost as [Hnonempty _]%andb_true_iff. rewrite Hnonempty.
  cbn [orb]. rewrite Hs.
  assert (Hurl : ∀ tail,
            str.truthy (path' +:+ tail) && negb (str.startswith (path' +:+ tail) "/")
            = false).
  { intros tail. destruct path' as [|a p]; [done|]. rewrite str_app_cons.
    cbn [str.startswith str.truthy] in *. case_decide; done. }
  f_equal. rewrite Href.
  destruct (str.truthy params'), (str.truthy query'), (str.truthy fragment');
    rewrite ?Hurl, ?Hptruthy, ?Hpath; cbn [negb andb];
    rewrite ?str_app_nil_r, ?str_append_assoc, ?str_app_nil_r; reflexivity.
Qed.






(** ** The search terms of the crawler *)

Lemma str_lstrip_by_head p a s :
  p a = false → str.lstrip_by p (String a s) = String a s.
Proof. intros Ha. cbn [str.lstrip_by]. by rewrite Ha. Qed.

Lemma str_lstrip_by_cases p s :
  str.lstrip_by p s = ""
  ∨ ∃ a r, str.lstrip_by p s = String a r ∧ p a = false.
Proof.
  induction s as [|a s IH]; [by left|]. cbn [str.lstrip_by].
  destruct (p a) eqn:Ha; [exact IH|]. right. by exists a, s.
Qed.

Lemma str_rstrip_by_head p a s :
  p a = false → ∃ r, str.rstrip_by p (String a s) = String a r.
Proof.
  intros Ha. cbn [str.rstrip_by]. destruct (str.rstrip_by p s) as [|b r].
  - rewrite Ha. by eexists.
  - by eexists.
Qed.

Lemma str_rstrip_by_idem p s :
  str.rstrip_by p (str.rstrip_by p s) = str.rstrip_by p s.
Proof.
  induction s as [|a s IH]; [reflexivity|]. cbn [str.rstrip_by].
  destruct (str.rstrip_by p s) as [|b r] eqn:Hr.
  - destruct (p a) eqn:Ha; [reflexivity|]. cbn [str.rstrip_by]. by rewrite Ha.
  - change (str.rstrip_by p (String a (String b r)))
      with (match str.rstrip_by p (String b r) with
            | EmptyString => if p a then EmptyString else String a EmptyString
            | r' => String a r'
            end).
    by rewrite IH.
Qed.

Lemma str_strip_idem s : str.strip (str.strip s) = str.strip s.
Proof.
  unfold str.strip.
  destruct (str_lstrip_by_cases str.isspace s) as [->|(a & r & -> & Ha)];
    [reflexivity|].
  destruct (str_rstrip_by_head str.isspace a r Ha) as [r' Hr'].
  rewrite Hr' at 1. rewrite str_lstrip_by_head by done. rewrite <- Hr'.
  apply str_rstrip_by_idem.
Qed.

Lemma str_split_no_separator c s :
  Forall (λ x, str.has c x = false) (str.split c s).
Proof.
  induction s as [|a s IH]; [by repeat constructor|]. cbn [str.split].
  case_decide as Hac; [by constructor|].
  destruct (str.split c s) as [|x xs]; [repeat constructor; cbn; by case_decide|].
  apply Forall_cons in IH as [Hx Hxs]. constructor; [|done].
  cbn [str.has]. by rewrite decide_False.
Qed.

Lemma str_split_absent c s : str.has c s = false → str.split c s = [s].
Proof.
  induction s as [|a s IH]; [reflexivity|]. cbn [str.has str.split].
  case_decide; [discriminate|]. intros Hs. by rewrite IH.
Qed.

Lemma str_has_all c s : str.has c s = false ↔ str.all (λ a, negb (bool_decide (a = c))) s = true.
Proof.
  induction s as [|a s IH]; [done|]. cbn [str.has str.all].
  case_decide as Hac.
  - rewrite bool_decide_eq_true_2 by done. cbn. split; discriminate.
  - rewrite bool_decide_eq_false_2 by done. cbn. exact IH.
Qed.

Lemma str_strip_has c s : str.has c s = false → str.has c (str.strip s) = false.
Proof.
  rewrite !str_has_all. intros Hs. unfold str.strip.
  by apply str_all_rstrip_by, str_all_lstrip_by.
Qed.

(** X12. The search terms the crawler takes from its comma-separated input.
    Every term is non-empty, holds no comma and has no white space at either
    end (trimming it again changes nothing); blank entries between commas are
    left out. An input without a comma that is not blank gives the single term
    that is the input trimmed. Class patterns are taken only in mode 1 and
    search words only in mode 2, so never both. *)
Theorem search_terms_are_trimmed_and_not_blank mode search_input :
  Forall (λ term, term ≠ "" ∧ str.strip term = term ∧ str.has "," term = false)
         (CrawlerThread.split_terms search_input)
  ∧ (str.has "," search_input = false → str.strip search_input ≠ "" →
     CrawlerThread.split_terms search_input = [str.strip search_input])
  ∧ (CrawlerThread.class_patterns mode search_input ≠ [] → mode = 1)
  ∧ (CrawlerThread.search_words mode search_input ≠ [] → mode = 2)
  ∧ (CrawlerThread.class_patterns mode search_input = []
     ∨ CrawlerThread.search_words mode search_input = []).
Proof.
  unfold CrawlerThread.split_terms. split_and!.
  - apply Forall_forall. intros term Hterm.
    apply list_elem_of_In, filter_In in Hterm as [Hterm Htruthy].
    apply in_map_iff in Hterm as (piece & <- & Hpiece).
    split_and!.
    + intros Hempty. by rewrite Hempty in Htruthy.
    + apply str_strip_idem.
    + apply str_strip_has.
      pose proof (str_split_no_separator "," search_input) as Hall.
      rewrite Forall_forall in Hall. by apply Hall, list_elem_of_In.
  - intros Hcomma Hblank. rewrite str_split_absent by done. cbn [map List.filter].
    by destruct (str.strip search_input).
  - unfold CrawlerThread.class_patterns. by case_decide.
  - unfold CrawlerThread.search_words. repeat case_decide; done.
  - unfold CrawlerThread.class_patterns, CrawlerThread.search_words.
    case_decide; [by right|by left].
Qed.

(** ** The simulation and the worker *)

Lemma exclusions_of_simulation :
  exclusions = SimulationCrawler.exclusions ∪ {["component--newsletter"]}.
Proof. apply set_eq. intros x. unfold exclusions, SimulationCrawler.exclusions.
  set_solver. Qed.

(** X13. The simulation walker stops at exactly the elements at which the
    worker's walker stops, and at the small [div]s that hold the feedback
    prompt: its early return is the worker's three tests (pruned tag,
    exclusion class, feedback id) or its own text-based test. So an element
    the simulation walks into is never pruned by the worker, and an element
    that the simulation leaves out and that is no feedback block is left out
    by the worker too, nothing being appended. *)
Theorem simulation_prunes_what_the_worker_prunes self doc ps name attrs classes
    contents :
  let element := {| node := Tag name attrs classes contents; parents := ps |} in
  let worker_prunes :=
    bool_decide (name ∈ never_descend)
    || negb (bool_decide ((list_to_set classes : gset string) ## exclusions))
    || bool_decide (attrs !! "id" = Some "nppe-feedback-article-form") in
  SimulationCrawler.returns_early element
  = worker_prunes || SimulationCrawler.is_feedback_block element
  ∧ (worker_prunes = true →
     _process_element self doc ps (Tag name attrs classes contents)
     = Some (self, doc))
  ∧ (SimulationCrawler.returns_early element = false →
     _process_element self doc ps (Tag name attrs classes contents)
     = let st := tag_text_block self doc (list_to_set classes) in
       match special_component name classes with
       | Some component_name =>
           _process_special_component st.1 st.2 element component_name
       | None =>
           handled ← process_tag st.1 st.2 element;
           match handled with
           | Some doc => Some (st.1, doc)
           | None =>
               process_children st.1 st.2 (Tag name attrs classes contents :: ps)
                 contents
           end
       end).
Proof.
  intros element worker_prunes.
  assert (Hsame : SimulationCrawler.returns_early element
                  = worker_prunes || SimulationCrawler.is_feedback_block element).
  { unfold SimulationCrawler.returns_early, worker_prunes, never_descend.
    cbn [bs4.name bs4.get_class bs4.get element node].
    f_equal. f_equal. rewrite <- orb_assoc. f_equal.
    apply eq_true_iff_eq. rewrite !orb_true_iff, !negb_true_iff.
    rewrite !bool_decide_eq_false, !bool_decide_eq_true.
    rewrite exclusions_of_simulation. split.
    - intros [Hnot|Hin] Hdisj; [apply Hnot|]; set_solver.
    - intros Hnot.
      destruct (decide ("component--newsletter"
                        ∈ (list_to_set classes : gset string))) as [|Hno];
        [by right|left].
      intros Hdisj. apply Hnot. set_solver. }
  split_and!; [done| |].
  - intros Hprunes. rewrite _process_element_Tag. unfold worker_prunes in Hprunes.
    apply orb_true_iff in Hprunes as [Hprunes| ->];
      [apply orb_true_iff in Hprunes as [->| ->]|]; [done| |].
    + by case_match.
    + by repeat case_match.
  - rewrite Hsame. intros [Hprunes _]%orb_false_iff.
    unfold worker_prunes in Hprunes.
    apply orb_false_iff in Hprunes as [Hprunes Hid].
    apply orb_false_iff in Hprunes as [Htag Hclass].
    rewrite _process_element_Tag. by rewrite Htag, Hclass, Hid.
Qed.

(** X14. The resolver of the simulation and the worker's. The simulation's
    resolver never raises and resolving twice changes nothing. A worker whose
    base URL is the simulation's site resolves to the same text as the
    simulation every reference that is empty, that starts with [http], or
    that is a rooted reference (one leading slash, no tab or line break, no
    dot segment, no empty query, fragment or parameters). *)
Theorem simulation_resolver_agrees_on_rooted_references self :
  base_url self = "https://www.purina.fr" →
  (∀ reference,
     SimulationCrawler._make_absolute (SimulationCrawler._make_absolute reference)
     = SimulationCrawler._make_absolute reference)
  ∧ (∀ reference,
       reference = "" ∨ str.startswith reference "http" = true
       ∨ is_rooted_reference reference = true →
       _make_absolute self reference
       = Some (SimulationCrawler._make_absolute reference)).
Proof.
  intros Hbase. split.
  - intros reference. unfold SimulationCrawler._make_absolute.
    destruct (str.startswith reference "http") eqn:Hhttp; [by rewrite Hhttp|].
    destruct (str.startswith reference "/") eqn:Hslash; [reflexivity|].
    by rewrite Hhttp, Hslash.
  - intros reference [->|[Hhttp|Hrooted]]; [reflexivity| |].
    + unfold _make_absolute, SimulationCrawler._make_absolute. rewrite Hhttp.
      by destruct reference.
    + pose proof Hrooted as Hparts. unfold is_rooted_reference in Hparts.
      apply andb_true_iff in Hparts as [Hparts _].
      apply andb_true_iff in Hparts as [Hparts _].
      apply andb_true_iff in Hparts as [Hslash _].
      unfold SimulationCrawler._make_absolute. rewrite Hslash.
      destruct reference as [|a rest]; [discriminate|].
      cbn [str.startswith] in Hslash. case_decide as Ha; [subst a|discriminate].
      unfold _make_absolute. cbn [str.truthy negb str.startswith].
      rewrite decide_False by discriminate. cbn [negb].
      rewrite Hbase.
      apply (urljoin_rooted_reference "https" "www.purina.fr"); [set_solver|done..].
Qed.

End ContentExtractorWorker.


(** * The claims on concrete pages *)

Lemma example_worker_init :
  __init__ accept_bracketed_netloc "https://www.example.com/page" "out"
  = Some example_worker.
Proof. vm_compute. reflexivity. Qed.

(** C1, counterexample. The two anchors of
    [article_list_with_two_references] resolve to the same absolute URL, and
    both give a data row: the table has two rows for that URL. *)
Lemma C1_counterexample_same_url_two_rows :
  let self := example_worker in
  _make_absolute accept_bracketed_netloc self "/article-1"
  = Some "https://www.example.com/article-1"
  ∧ _make_absolute accept_bracketed_netloc self "https://www.example.com/article-1"
    = Some "https://www.example.com/article-1"
  ∧ _process_special_component accept_bracketed_netloc self []
      article_list_with_two_references "Articles List"
    = Some (self,
            [Table "Light Grid Accent 1"
               [[[set_bold (add_run "Title")]; [set_bold (add_run "URL")]];
                [[set_bold (add_run "Component: Articles List")]; [add_run ""]];
                [[add_run "Read more"];
                 [add_run "https://www.example.com/article-1"]];
                [[add_run "Article one"];
                 [add_run "https://www.example.com/article-1"]]];
             add_paragraph "" None]).
Proof. split_and!; vm_compute; reflexivity. Defined.

(** C1 on Scenario C: the second anchor to [/article-1] gives no row. *)
Lemma C1_witness_scenario_C :
  let a := {| node := Tag "a" {[ "href" := "/article-1" ]} [] [NavigableString "Article one"];
              parents := [node article_list_scenario_C] |} in
  let b := {| node := Tag "a" {[ "href" := "/article-1" ]} [] [NavigableString "Read more"];
              parents := [node article_list_scenario_C] |} in
  bs4.find_all (bs4.has_name ["a"]) article_list_scenario_C = [a; b]
  ∧ ¬ under_category_field a
  ∧ href b = href a
  ∧ article_links_from ∅ [a; b] = article_links_from ∅ [a]
  ∧ articles_list accept_bracketed_netloc example_worker [] article_list_scenario_C
    = Some [Table "Light Grid Accent 1"
              [[[set_bold (add_run "Title")]; [set_bold (add_run "URL")]];
               [[set_bold (add_run "Component: Articles List")]; [add_run ""]];
               [[add_run "Article one"];
                [add_run "https://www.example.com/article-1"]]];
            add_paragraph "" None].
Proof.
  intros a b.
  assert (Hcat : ¬ under_category_field a) by (unfold under_category_field; compute_done).
  destruct (C1_same_href_gives_one_row accept_bracketed_netloc example_worker []
              article_list_scenario_C) as (Hlater & _ & _ & Hrows).
  split_and!.
  - reflexivity.
  - exact Hcat.
  - reflexivity.
  - exact (Hlater ∅ [] a [] b [] Hcat eq_refl).
  - rewrite Hrows. vm_compute. reflexivity.
Defined.

(** C2 on [page_with_components]: the page's two text images are marked 1 and
    2, the contact component between them keeps its name, and its one text
    block is marked 1. *)
Lemma C2_witness_page_with_components :
  ∃ self' doc,
    _save_to_docx accept_bracketed_netloc example_worker
      "https://www.example.com/page" page_with_components = Some (self', doc)
    ∧ text_block_markers doc = ["[COMPONENT: Text Block 1]"]
    ∧ component_markers doc !! 0 = Some "[COMPONENT: Text Image 1]"
    ∧ component_markers doc !! 1 = Some "[COMPONENT: Contact]"
    ∧ component_markers doc !! 2 = Some "[COMPONENT: Text Image 2]"
    ∧ length (component_markers doc) = 3
    ∧ text_image_count self' = 2.
Proof.
  destruct (_save_to_docx accept_bracketed_netloc example_worker
              "https://www.example.com/page" page_with_components)
    as [[self' doc]|] eqn:Hsave; [|vm_compute in Hsave; discriminate].
  exists self', doc. split; [reflexivity|].
  destruct (C2_markers_numbered_in_traversal_order accept_bracketed_netloc
              example_worker "https://www.example.com/page" page_with_components
              self' doc Hsave) as (Htb & Hlen & Hith & _ & Hcount).
  split_and!.
  - exact Htb.
  - exact (Hith 0 "Text Image" eq_refl).
  - exact (Hith 1 "Contact" eq_refl).
  - exact (Hith 2 "Text Image" eq_refl).
  - exact Hlen.
  - exact Hcount.
Defined.

(** C3 on [page_with_components]: the worker the first call leaves behind
    gives the same document on the second call. *)
Lemma C3_witness_second_call :
  ∃ self1 doc1,
    _save_to_docx accept_bracketed_netloc example_worker
      "https://www.example.com/page" page_with_components = Some (self1, doc1)
    ∧ text_image_count self1 = 2
    ∧ _save_to_docx accept_bracketed_netloc self1
        "https://www.example.com/page" page_with_components = Some (self1, doc1).
Proof.
  destruct (_save_to_docx accept_bracketed_netloc example_worker
              "https://www.example.com/page" page_with_components)
    as [[self1 doc1]|] eqn:Hsave; [|vm_compute in Hsave; discriminate].
  exists self1, doc1. split; [reflexivity|]. split.
  - vm_compute in Hsave. by injection Hsave as <- _.
  - exact (proj2 (C3_extraction_call_is_repeatable accept_bracketed_netloc
                    example_worker "https://www.example.com/page"
                    page_with_components) self1 doc1 Hsave).
Defined.

(** C4 on [excluded_with_component]: the author block is skipped together
    with the text-image component inside it. *)
Lemma C4_witness_excluded_with_component :
  (∃ token, token ∈ ["article-author-bottom"] ∧ token ∈ exclusions)
  ∧ _process_element accept_bracketed_netloc example_worker [] []
      excluded_with_component = Some (example_worker, []).
Proof.
  assert (Hexcluded : ∃ token : string,
             token ∈ ["article-author-bottom"] ∧ token ∈ exclusions).
  { exists "article-author-bottom". split; [left|]. vm_compute. reflexivity. }
  split; [exact Hexcluded|].
  apply C4_excluded_element_appends_nothing. left. exact Hexcluded.
Defined.

(** C5 on two text blocks. [text_block_and_component] gets the marker of
    text block 1, then the contact component is rendered after the marker;
    its paragraph is not walked. [text_block_with_children] is no component:
    after its marker its children are walked in order, the paragraph, the
    direct text and the nested text block, which gets marker 2. *)
Lemma C5_witness_text_block_and_component :
  ("div" ∉ never_descend)
  ∧ ((list_to_set (text_block_classes ++ ["component--contact"]) : gset string)
     ## exclusions)
  ∧ (∅ : gmap string string) !! "id" ≠ Some "nppe-feedback-article-form"
  ∧ (target_classes
     ⊆ (list_to_set (text_block_classes ++ ["component--contact"]) : gset string))
  ∧ "div" ∈ ["div"; "section"; "article"]
  ∧ component_name (text_block_classes ++ ["component--contact"]) = Some "Contact"
  ∧ _process_element accept_bracketed_netloc example_worker [] []
      text_block_and_component
    = _process_special_component accept_bracketed_netloc
        (set_text_block_count 1 example_worker) [text_block_marker 1]
        {| node := text_block_and_component; parents := [] |} "Contact"
  ∧ _process_element accept_bracketed_netloc example_worker [] []
      text_block_and_component
    = Some (set_text_block_count 1 example_worker,
            [text_block_marker 1; component_marker "Contact";
             Table "Table Grid"
               [[[set_italic (add_run "No Image")]; [add_run "Unvisited"]]];
             add_paragraph "" None])
  ∧ ((list_to_set text_block_classes : gset string) ## exclusions)
  ∧ (target_classes ⊆ (list_to_set text_block_classes : gset string))
  ∧ special_component "div" text_block_classes = None
  ∧ ("div" ∉ handled_tags)
  ∧ _process_element accept_bracketed_netloc example_worker [] []
      text_block_with_children
    = process_children accept_bracketed_netloc
        (set_text_block_count 1 example_worker) [text_block_marker 1]
        [text_block_with_children]
        [Tag "p" ∅ [] [NavigableString "Hello"];
         NavigableString " A direct text of some length. ";
         Tag "div" ∅ text_block_classes [Tag "h2" ∅ [] [NavigableString "Inner"]]]
  ∧ _process_element accept_bracketed_netloc example_worker [] []
      text_block_with_children
    = Some (set_text_block_count 2 example_worker,
            [text_block_marker 1;
             Paragraph None false [add_run "Hello"];
             Paragraph None false [add_run "A direct text of some length."];
             text_block_marker 2;
             Heading 2 [add_run "Inner"]]).
Proof.
  assert (Hname : "div" ∉ never_descend) by compute_done.
  assert (Hdisjoint :
    (list_to_set (text_block_classes ++ ["component--contact"]) : gset string)
    ## exclusions) by compute_done.
  assert (Hid : (∅ : gmap string string) !! "id" ≠ Some "nppe-feedback-article-form")
    by compute_done.
  assert (Htarget :
    target_classes
    ⊆ (list_to_set (text_block_classes ++ ["component--contact"]) : gset string))
    by compute_done.
  assert (Hcontainer : "div" ∈ ["div"; "section"; "article"]) by compute_done.
  assert (Hdisjoint' : (list_to_set text_block_classes : gset string) ## exclusions)
    by compute_done.
  assert (Htarget' : target_classes ⊆ (list_to_set text_block_classes : gset string))
    by compute_done.
  assert (Hnone : special_component "div" text_block_classes = None)
    by (vm_compute; reflexivity).
  assert (Hplain : "div" ∉ handled_tags) by compute_done.
  pose proof (proj1 (proj1 (C5_text_block_then_component accept_bracketed_netloc
                              example_worker [] [] "div" ∅
                              (text_block_classes ++ ["component--contact"])
                              [Tag "p" ∅ [] [NavigableString "Unvisited"]]
                              Hname Hdisjoint Hid Htarget)
                       "Contact" Hcontainer eq_refl ltac:(discriminate)))
    as Hcomponent.
  destruct (C5_text_block_then_component accept_bracketed_netloc
              example_worker [] [] "div" ∅ text_block_classes
              [Tag "p" ∅ [] [NavigableString "Hello"];
               NavigableString " A direct text of some length. ";
               Tag "div" ∅ text_block_classes [Tag "h2" ∅ [] [NavigableString "Inner"]]]
              Hname Hdisjoint' Hid Htarget') as (_ & _ & Hchildren & _).
  split_and!.
  - exact Hname.
  - exact Hdisjoint.
  - exact Hid.
  - exact Htarget.
  - exact Hcontainer.
  - reflexivity.
  - exact Hcomponent.
  - vm_compute. reflexivity.
  - exact Hdisjoint'.
  - exact Htarget'.
  - exact Hnone.
  - exact Hplain.
  - exact (Hchildren Hnone Hplain).
  - vm_compute. reflexivity.
Defined.

(** C5, counterexample. Three elements whose class set holds the seven
    text-block tokens and that get no marker, because an exclusion test
    stops them first: one carries the newsletter class, one is a [nav] tag,
    one has the feedback widget's [id]. The walker returns the worker and
    the empty document unchanged: nothing is emitted and the count is not
    raised. *)
Lemma C5_counterexample_excluded_text_block :
  Forall (λ element,
            match element with
            | Tag _ _ classes _ =>
                target_classes ⊆ (list_to_set classes : gset string)
            | NavigableString _ => False
            end) excluded_text_blocks
  ∧ map (_process_element accept_bracketed_netloc example_worker [] [])
        excluded_text_blocks
    = [Some (example_worker, []); Some (example_worker, []);
       Some (example_worker, [])]
  ∧ text_block_markers [] = []
  ∧ text_block_count example_worker = 0.
Proof.
  split_and!.
  - unfold excluded_text_blocks. repeat constructor; compute_done.
  - vm_compute. reflexivity.
  - reflexivity.
  - reflexivity.
Defined.



(** C7 on Scenario E: two rows of three and of two cells give a grid of two
    rows and three columns, the third cell of the second row empty. *)
Lemma C7_witness_scenario_E :
  table_col_count table_scenario_E = 3
  ∧ length (table_rows table_scenario_E) = 2
  ∧ ∃ grid row,
      _process_table [] table_scenario_E = [Table "Light Grid Accent 1" grid]
      ∧ length grid = 2
      ∧ Forall (λ line, length line = 3) grid
      ∧ table_rows table_scenario_E !! 1 = Some row
      ∧ length (table_cells row) = 2
      ∧ grid !! 1 ≫= (.!! 1) = Some [add_run "e"]
      ∧ grid !! 1 ≫= (.!! 2) = Some [].
Proof.
  split; [reflexivity|]. split; [reflexivity|].
  destruct (C7_table_rows_and_columns [] table_scenario_E)
    as (Htable & Hlen & Hcols & _ & _ & Hcell).
  eexists _, _. split_and!.
  - exact Htable.
  - exact Hlen.
  - exact Hcols.
  - reflexivity.
  - reflexivity.
  - exact (Hcell 1 1 _ eq_refl ltac:(vm_compute; lia)).
  - exact (Hcell 1 2 _ eq_refl ltac:(vm_compute; lia)).
Defined.

(** C10 on [article_list_without_articles]: a category link and an anchor
    without [href] leave no article, and only the spacer is appended. *)
Lemma C10_witness_no_articles :
  article_links article_list_without_articles = []
  ∧ bs4.get {| node := Tag "a" ∅ [] [NavigableString "Top"]; parents := [] |} "href"
    = None
  ∧ article_links_from ∅
      [{| node := Tag "a" ∅ [] [NavigableString "Top"]; parents := [] |}] = []
  ∧ _process_special_component accept_bracketed_netloc example_worker []
      article_list_without_articles "Articles List"
    = Some (example_worker, [add_paragraph "" None]).
Proof.
  destruct (C10_article_list_without_qualifying_anchor accept_bracketed_netloc
              example_worker [] article_list_without_articles)
    as (Hdrop & _ & _ & Hspacer).
  split_and!.
  - reflexivity.
  - reflexivity.
  - exact (Hdrop ∅ []
             {| node := Tag "a" ∅ [] [NavigableString "Top"]; parents := [] |} []
             (or_introl eq_refl)).
  - exact (Hspacer eq_refl).
Defined.

(** * The model on known inputs *)

(** [urljoin] on references of every kind, with the results of CPython. *)
Example urljoin_reference_results :
  map (urljoin accept_bracketed_netloc "https://www.example.com")
    ["/article-1"; "/a/../b"; "/a/./b/"; "/a/.."; "//cdn.example.com/a.jpg";
     "/a?"; "/a;"; "/a#"; "/a;x?y#z"; "a/b"; "?q"; "#top"; " /x"; "/";
     "mailto:x@y"; "/a:b"; "/a/..;x"; "/a;b/c"]
  = map Some
      ["https://www.example.com/article-1"; "https://www.example.com/b";
       "https://www.example.com/a/b/"; "https://www.example.com/";
       "https://cdn.example.com/a.jpg"; "https://www.example.com/a";
       "https://www.example.com/a"; "https://www.example.com/a";
       "https://www.example.com/a;x?y#z"; "https://www.example.com/a/b";
       "https://www.example.com?q"; "https://www.example.com#top";
       "https://www.example.com/x"; "https://www.example.com/"; "mailto:x@y";
       "https://www.example.com/a:b"; "https://www.example.com/;x";
       "https://www.example.com/a;b/c"].
Proof. vm_compute. reflexivity. Qed.

(** A network location with one bracket only makes [urljoin] raise. *)
Example urljoin_raises :
  urljoin accept_bracketed_netloc "https://www.example.com" "//[cdn/a.jpg" = None.
Proof. vm_compute. reflexivity. Qed.

(** The origin kept by the constructor: scheme and network location. *)
Example base_url_results :
  map (λ url, base_url <$> __init__ accept_bracketed_netloc url "out")
    ["https://www.example.com/page?x#y"; "HTTP://User@Host:80/p";
     "example.com/p"; "//h/p"]
  = map Some ["https://www.example.com"; "http://User@Host:80"; "://"; "://h"].
Proof. vm_compute. reflexivity. Qed.

(** The component names read from class lists. *)
Example component_name_results :
  map component_name
    [["component"; "component--text-image"]; ["component--articles-list"];
     ["article--hero"; "component--x"]; ["hero--image"]; ["field"];
     ["component--"]]
  = [Some "Text Image"; Some "Articles List"; Some "Hero Article";
     Some "Hero Image"; None; Some ""].
Proof. vm_compute. reflexivity. Qed.

(** Scenario B: a text-image component with an image and a paragraph. *)
Example text_image_scenario_B_rendered :
  _process_element accept_bracketed_netloc example_worker [] [] text_image_scenario_B
  = Some (set_text_image_count 1 example_worker,
          [component_marker "Text Image 1";
           Table "Table Grid"
             [[[set_bold (add_run ("Image Position: Left" +:+ LF));
                set_bold (add_run ("IMAGE:" +:+ LF));
                add_run "https://www.example.com/a.jpg"];
               [set_bold (add_run "Alt Text: "); add_run "x"]]];
           add_paragraph "" None;
           add_paragraph "Body" None;
           add_paragraph "" None]).
Proof. vm_compute. reflexivity. Qed.

(** Scenario A: the first-level heading comes from the step before the walk,
    the paragraph from the walk. *)
Example heading_and_paragraph_scenario_A :
  (λ st : ContentExtractorWorker * Document, take 3 (drop 2 st.2))
  <$> _save_to_docx accept_bracketed_netloc example_worker
        "https://www.example.com/page"
        (bs4.BeautifulSoup
           [Tag "body" ∅ []
              [Tag "h1" ∅ [] [NavigableString "Title"];
               Tag "p" ∅ [] [NavigableString "Hello"]]])
  = Some [add_heading "Title" 1; add_paragraph "" None;
          Paragraph None false [add_run "Hello"]].
Proof. vm_compute. reflexivity. Qed.

(** * Further properties on concrete inputs *)

(** X1 on two URLs: one without reserved characters is kept, one with
    them has each replaced by an underscore. *)
Lemma safe_filename_witness :
  safe_filename "example.com-page" = "example.com-page.docx"
  ∧ safe_filename "https://www.example.com/a?b=1" = "https___www.example.com_a_b=1.docx".
Proof.
  split.
  - destruct (safe_filename_has_no_reserved_character "example.com-page")
      as (_ & _ & Hkept & _).
    apply Hkept.
    + reflexivity.
    + vm_compute. lia.
  - reflexivity.
Defined.



(** X8 on the page with components: the call returns a document, whose third
    block is the title. *)
Lemma saved_document_witness :
  ∃ self' doc,
    _save_to_docx accept_bracketed_netloc example_worker
      "https://www.example.com/page" page_with_components = Some (self', doc)
    ∧ doc !! 2 = Some (add_heading "Title" 1)
    ∧ Forall (λ b, uses_known_style b = true) doc
    ∧ ∀ i b, doc !! i = Some b → is_title_heading b = true →
        i = 2 ∧ ∃ h1, bs4.find (bs4.has_name ["h1"]) page_with_components = Some h1
                      ∧ b = add_heading (bs4.get_text_strip h1) 1.
Proof.
  destruct (_save_to_docx accept_bracketed_netloc example_worker
              "https://www.example.com/page" page_with_components)
    as [[self' doc]|] eqn:Hsaved; [|vm_compute in Hsaved; discriminate Hsaved].
  exists self', doc. split; [reflexivity|]. split.
  - vm_compute in Hsaved. injection Hsaved as _ <-. reflexivity.
  - exact (saved_document_uses_known_styles accept_bracketed_netloc
             example_worker "https://www.example.com/page" page_with_components
             self' doc Hsaved).
Defined.


(** X2 on a class list whose second token names a component. *)
Lemma component_name_witness :
  component_name ["container"; "component--text-image"; "component--contact"]
  = component_name ["component--text-image"]
  ∧ is_Some (component_name
               ["container"; "component--text-image"; "component--contact"]).
Proof.
  destruct (component_name_of_first_component_token accept_bracketed_netloc
              ["container"; "component--text-image"; "component--contact"])
    as (_ & Hfirst & _).
  apply (Hfirst ["container"] "component--text-image" ["component--contact"]).
  - reflexivity.
  - by repeat constructor.
  - reflexivity.
Defined.

(** X12 on an input of one term between blanks. *)
Lemma search_terms_witness :
  CrawlerThread.split_terms "  hero banner " = ["hero banner"]
  ∧ CrawlerThread.split_terms " a, b,, c ," = ["a"; "b"; "c"].
Proof.
  split; [|reflexivity].
  destruct (search_terms_are_trimmed_and_not_blank 1 "  hero banner ")
    as (_ & Hone & _).
  apply Hone; [reflexivity|discriminate].
Defined.

(** X14 on a worker made for a page of the simulation's site: a rooted
    reference resolves as in the simulation; a relative one, which the
    theorem leaves out, does not. *)
Lemma simulation_resolver_witness :
  let self :=
    {| url := "https://www.purina.fr/chien"; output_folder := "out";
       text_block_count := 0; text_image_count := 0;
       base_url := "https://www.purina.fr" |} in
  base_url self = "https://www.purina.fr"
  ∧ is_rooted_reference "/chien/article?page=2" = true
  ∧ _make_absolute accept_bracketed_netloc self "/chien/article?page=2"
    = Some "https://www.purina.fr/chien/article?page=2"
  ∧ SimulationCrawler._make_absolute "/chien/article?page=2"
    = "https://www.purina.fr/chien/article?page=2"
  ∧ SimulationCrawler._make_absolute "article.html" = "article.html"
  ∧ _make_absolute accept_bracketed_netloc self "article.html"
    = Some "https://www.purina.fr/article.html".
Proof.
  intros self.
  destruct (simulation_resolver_agrees_on_rooted_references
              accept_bracketed_netloc self eq_refl) as [_ Hagree].
  split_and!;
    [reflexivity|reflexivity
    |exact (Hagree "/chien/article?page=2" (or_intror (or_intror eq_refl)))
    |reflexivity..].
Defined.
